(** * agstack.infra: lifecycle helpers of the database and search clients

    A shallow embedding of [agstack/infra/db/__init__.py] and
    [agstack/infra/es/__init__.py].  The four [async def] functions are
    embedded as programs of a small coroutine monad whose only effects are
    calls into the two client libraries and [await]; the libraries
    themselves ([sqlobjects.database], [elasticsearch.dsl]) are parameters
    of the semantics.  Argument passing (positional arguments, keywords,
    defaults, [**engine_kwargs]) follows the binding order of the CPython
    call machinery. *)

From Stdlib Require Import Ascii String List ZArith Bool Arith Lia.
Import ListNotations.
Local Open Scope string_scope.
Local Open Scope list_scope.

Set Implicit Arguments.

(** ** Values and exceptions *)

Module Py.

(** Python values that travel through the helpers.  A float is carried as
    its binary64 bit pattern: the helpers never compute with it.  [VObj]
    is a reference to an object owned by a client library (a coroutine,
    a connection). *)
#[warnings="-register-all"]
Inductive pyval : Type :=
| VNone
| VBool (b : bool)
| VInt (z : Z)
| VFloat (bits : Z)
| VStr (s : string)
| VTuple (items : list pyval)
| VObj (ref : nat).

(** An exception: its class and its message. *)
Inductive exn : Type :=
| Exn (cls : string) (msg : string).

Definition TypeError (msg : string) : exn := Exn "TypeError" msg.

(** Keyword arguments, in the order they were written: a Python [dict]
    keeps insertion order and a callee can observe it. *)
Definition kwargs : Type := list (string * pyval).

Fixpoint lookup (name : string) (kw : kwargs) : option pyval :=
  match kw with
  | [] => None
  | (k, v) :: kw' => if String.eqb k name then Some v else lookup name kw'
  end.

Definition has_key (name : string) (kw : kwargs) : bool :=
  match lookup name kw with Some _ => true | None => false end.

(** ** Binding the arguments of a call to the parameters of a [def] *)

(** A parameter: its name and, when it is optional, its default. *)
Definition param : Type := (string * option pyval)%type.

Record signature : Type := {
  sig_params : list param;      (* positional-or-keyword parameters *)
  sig_varkw : bool              (* is there a [**kwargs] parameter? *)
}.

Definition param_names (sg : signature) : list string :=
  map fst (sig_params sg).

Definition is_param (sg : signature) (name : string) : bool :=
  existsb (String.eqb name) (param_names sg).

(** Step 1: positional arguments fill the parameters from the left; the
    surplus, if any, is detected after the keywords (step 3). *)
Definition bind_positional (sg : signature) (args : list pyval) : kwargs :=
  combine (param_names sg) args.

(** Step 2: each keyword either names a parameter, which must still be
    unbound, or is collected by [**kwargs], or is refused.  A keyword
    given twice never reaches the callee. *)
Fixpoint bind_keywords (sg : signature) (kw : kwargs)
    (locals extra : kwargs) : exn + (kwargs * kwargs) :=
  match kw with
  | [] => inr (locals, extra)
  | (k, v) :: kw' =>
      if is_param sg k then
        if has_key k locals
        then inl (TypeError "got multiple values for argument")
        else bind_keywords sg kw' (locals ++ [(k, v)]) extra
      else if sig_varkw sg then
        if has_key k extra
        then inl (TypeError "got multiple values for keyword argument")
        else bind_keywords sg kw' locals (extra ++ [(k, v)])
      else inl (TypeError "got an unexpected keyword argument")
  end.

(** Step 4: a parameter still unbound takes its default; a required one
    that is unbound is an error. *)
Fixpoint fill_defaults (ps : list param) (locals : kwargs)
    : exn + list pyval :=
  match ps with
  | [] => inr []
  | (name, dflt) :: ps' =>
      let slot :=
        match lookup name locals with
        | Some v => Some v
        | None => dflt
        end in
      match slot with
      | None => inl (TypeError "missing required positional argument")
      | Some v =>
          match fill_defaults ps' locals with
          | inl e => inl e
          | inr vs => inr (v :: vs)
          end
      end
  end.

(** The whole binding: the values of the parameters, in the order of the
    signature, and the dictionary received by [**kwargs]. *)
Definition bind_args (sg : signature) (args : list pyval) (kw : kwargs)
    : exn + (list pyval * kwargs) :=
  match bind_keywords sg kw (bind_positional sg args) [] with
  | inl e => inl e
  | inr (locals, extra) =>
      if Nat.ltb (List.length (sig_params sg)) (List.length args)
      then inl (TypeError "takes fewer positional arguments")   (* step 3 *)
      else
        match fill_defaults (sig_params sg) locals with
        | inl e => inl e
        | inr vs => inr (vs, extra)
        end
  end.

(** What the caller wrote for the parameter at position [pos] called
    [name]: the positional argument at that position, else the keyword of
    that name, else nothing.  This is the reading of "the argument is
    given / is omitted" used in the statements about forwarding. *)
Definition given (pos : nat) (name : string)
    (args : list pyval) (kw : kwargs) : option pyval :=
  match nth_error args pos with
  | Some v => Some v
  | None => lookup name kw
  end.

Definition given_or (dflt : pyval) (pos : nat) (name : string)
    (args : list pyval) (kw : kwargs) : pyval :=
  match given pos name args kw with
  | Some v => v
  | None => dflt
  end.

(** The caller's keywords that name no parameter, in the caller's order. *)
Definition surplus (sg : signature) (kw : kwargs) : kwargs :=
  filter (fun kv => negb (is_param sg (fst kv))) kw.

End Py.
Import Py.

(** ** Coroutines and the client libraries *)

Module Coro.

(** What a helper can call: the functions it imports from the two client
    libraries, and a method of an object one of them returned. *)
Inductive callee : Type :=
| init_db                     (* sqlobjects.database.init_db *)
| close_db                    (* sqlobjects.database.close_db *)
| create_connection           (* async_connections.connections.create_connection *)
| get_connection              (* async_connections.get_connection *)
| method (self : pyval) (name : string).

(** The body of an [async def]: it returns, raises, calls into a library
    or awaits a value.  There is no handler construct because the source
    has no [try]: whatever is raised inside a body leaves it. *)
Inductive coro (A : Type) : Type :=
| Return (a : A)
| Raise (e : exn)
| Call (f : callee) (args : list pyval) (kw : kwargs) (k : pyval -> coro A)
| Await (aw : pyval) (k : pyval -> coro A).

Arguments Return {A} a.
Arguments Raise {A} e.
Arguments Call {A} f args kw k.
Arguments Await {A} aw k.

Fixpoint bind {A B : Type} (c : coro A) (k : A -> coro B) : coro B :=
  match c with
  | Return a => k a
  | Raise e => Raise e
  | Call f args kw k' => Call f args kw (fun v => bind (k' v) k)
  | Await aw k' => Await aw (fun v => bind (k' v) k)
  end.

Declare Scope coro_scope.
Delimit Scope coro_scope with coro.
Notation "x <- c ;; k" := (bind c (fun x => k))
  (at level 61, c at next level, right associativity) : coro_scope.
Notation "c ;; k" := (bind c (fun _ => k))
  (at level 61, right associativity) : coro_scope.

(** A plain call and [await aw] as single instructions. *)
Definition call (f : callee) (args : list pyval) (kw : kwargs) : coro pyval :=
  Call f args kw Return.

Definition await (aw : pyval) : coro pyval :=
  Await aw Return.

(** [f(a, k1=v1, ..., **star)]: the explicit keywords and the unpacked
    dictionary are merged before the callee is entered, and a key present
    in both is a [TypeError] of the caller. *)
Definition call_star (f : callee) (args : list pyval)
    (explicit star : kwargs) : coro pyval :=
  if existsb (fun kv => has_key (fst kv) explicit) star
  then Raise (TypeError "got multiple values for keyword argument")
  else call f args (explicit ++ star).

(** The answer of an awaitable to one [send]: it suspends the whole chain
    of awaiting coroutines, or it is done with a value, or it raises. *)
Inductive sent : Type :=
| Yielded
| Resolved (v : pyval)
| Failed (e : exn).

(** A client library, seen from the helpers: a state of its own (engine,
    pool, connection registry, sockets), what a call does, what sending
    to one of its awaitables does, and what happens to its state while
    the event loop runs other tasks between two resumptions. *)
Record library : Type := {
  lib_state : Type;
  lib_call : callee -> list pyval -> kwargs -> lib_state ->
             (exn + pyval) * lib_state;
  lib_send : pyval -> lib_state -> sent * lib_state;
  lib_tick : lib_state -> lib_state
}.

(** What an observer placed at the boundary of the library sees. *)
Inductive event : Type :=
| EvCall (f : callee) (args : list pyval) (kw : kwargs) (r : exn + pyval)
| EvSend (aw : pyval) (r : sent).

(** The end of one resumption of a coroutine. *)
Inductive step (A : Type) : Type :=
| Suspended (rest : coro A)
| Finished (a : A)
| Raised (e : exn).

Arguments Suspended {A} rest.
Arguments Finished {A} a.
Arguments Raised {A} e.

Section Semantics.

Variable L : library.

(** One [send(None)] to a coroutine: it runs up to its next suspension
    or to its end.  A coroutine suspended in [await aw] is resumed by
    sending to [aw] again. *)
Fixpoint resume {A : Type} (c : coro A) (s : lib_state L)
    : step A * list event * lib_state L :=
  match c with
  | Return a => (Finished a, [], s)
  | Raise e => (Raised e, [], s)
  | Call f args kw k =>
      let (r, s1) := lib_call L f args kw s in
      match r with
      | inl e => (Raised e, [EvCall f args kw r], s1)
      | inr v =>
          let '(o, t, s2) := resume (k v) s1 in
          (o, EvCall f args kw r :: t, s2)
      end
  | Await aw k =>
      let (r, s1) := lib_send L aw s in
      match r with
      | Yielded => (Suspended (Await aw k), [EvSend aw r], s1)
      | Resolved v =>
          let '(o, t, s2) := resume (k v) s1 in
          (o, EvSend aw r :: t, s2)
      | Failed e => (Raised e, [EvSend aw r], s1)
      end
  end.

(** The event loop driving a coroutine as a task, for at most [fuel]
    resumptions.  [None]: still suspended when the fuel ran out. *)
Fixpoint run {A : Type} (fuel : nat) (c : coro A) (s : lib_state L)
    : option (exn + A) * list event * lib_state L :=
  match fuel with
  | O => (None, [], s)
  | S n =>
      match resume c s with
      | (Suspended c', t, s1) =>
          let '(o, t', s2) := run n c' (lib_tick L s1) in
          (o, t ++ t', s2)
      | (Finished a, t, s1) => (Some (inr a), t, s1)
      | (Raised e, t, s1) => (Some (inl e), t, s1)
      end
  end.

(** The same loop driving an awaitable of the library directly: the
    yardstick for "the awaitable has resolved". *)
Fixpoint drive (fuel : nat) (aw : pyval) (s : lib_state L)
    : option (exn + pyval) * list event * lib_state L :=
  match fuel with
  | O => (None, [], s)
  | S n =>
      let (r, s1) := lib_send L aw s in
      match r with
      | Yielded =>
          let '(o, t, s2) := drive n aw (lib_tick L s1) in
          (o, EvSend aw r :: t, s2)
      | Resolved v => (Some (inr v), [EvSend aw r], s1)
      | Failed e => (Some (inl e), [EvSend aw r], s1)
      end
  end.

End Semantics.

(** Observations on a trace. *)
Definition is_send (ev : event) : bool :=
  match ev with
  | EvCall _ _ _ _ => false
  | EvSend _ _ => true
  end.

(** The calls of a trace, the sends left out. *)
Definition calls (t : list event) : list event :=
  filter (fun ev => negb (is_send ev)) t.

Definition raised_in (ev : event) : option exn :=
  match ev with
  | EvCall _ _ _ (inl e) => Some e
  | EvSend _ (Failed e) => Some e
  | _ => None
  end.

End Coro.
Import Coro.
Local Open Scope coro_scope.

(** ** The helpers *)

(** [async def f(params): body].  Calling [f] binds the arguments and, if
    they fit, makes a coroutine object; nothing of the body has run yet.
    A call that does not fit the signature raises at the call. *)
Definition async_def (sg : signature)
    (body : list pyval -> kwargs -> coro pyval)
    (args : list pyval) (kw : kwargs) : exn + coro pyval :=
  match bind_args sg args kw with
  | inl e => inl e
  | inr (vs, extra) => inr (body vs extra)
  end.

Section Helpers.

(** The [__format__] of a value that is not a [str]: it belongs to the
    type of [v], not to the helpers, and it is taken here as a function
    that gives a string.  A [__format__] that raises is outside this
    model, which is why every statement about a run of [setup_db] below
    is made for a username, a password, a host and a database that are
    [str] values, where the field is the string itself. *)
Variable format_object : pyval -> string.

(** A replacement field [{v}] of an f-string. *)
Definition format_field (v : pyval) : string :=
  match v with
  | VStr s => s
  | _ => format_object v
  end.

(** *** agstack/infra/db/__init__.py *)

Definition setup_db_sig : signature := {|
  sig_params :=
    [ ("username", None);
      ("password", None);
      ("host", None);
      ("database", None);
      ("echo", Some (VBool false));
      ("pool_size", Some (VInt 5));
      ("max_overflow", Some (VInt 10));
      ("pool_timeout", Some (VInt 30));
      ("pool_recycle", Some (VInt 3600)) ];
  sig_varkw := true
|}.

Definition db_url (username password host database : pyval) : string :=
  "postgresql+asyncpg://" ++ format_field username ++ ":"
    ++ format_field password ++ "@" ++ format_field host ++ "/"
    ++ format_field database.

Definition setup_db_body
    (username password host database echo pool_size max_overflow
       pool_timeout pool_recycle : pyval)
    (engine_kwargs : kwargs) : coro pyval :=
  let url := db_url username password host database in
  aw <- call_star init_db [VStr url]
          [ ("echo", echo);
            ("pool_size", pool_size);
            ("max_overflow", max_overflow);
            ("pool_timeout", pool_timeout);
            ("pool_recycle", pool_recycle) ]
          engine_kwargs ;;
  _ <- await aw ;;
  Return VNone.

Definition setup_db : list pyval -> kwargs -> exn + coro pyval :=
  async_def setup_db_sig (fun vs engine_kwargs =>
    match vs with
    | [username; password; host; database; echo; pool_size;
       max_overflow; pool_timeout; pool_recycle] =>
        setup_db_body username password host database echo pool_size
          max_overflow pool_timeout pool_recycle engine_kwargs
    | _ => Raise (Exn "SystemError" "bad binding")
    end).

Definition shutdown_db_sig : signature :=
  {| sig_params := []; sig_varkw := false |}.

Definition shutdown_db_body : coro pyval :=
  aw <- call close_db [] [] ;;
  _ <- await aw ;;
  Return VNone.

Definition shutdown_db : list pyval -> kwargs -> exn + coro pyval :=
  async_def shutdown_db_sig (fun _ _ => shutdown_db_body).

(** *** agstack/infra/es/__init__.py *)

Definition setup_es_sig : signature := {|
  sig_params :=
    [ ("host", None);
      ("username", None);
      ("password", None);
      ("timeout", Some (VInt 3));
      ("sniff_on_start", Some (VBool true));
      ("sniff_timeout", Some (VInt 3)) ];
  sig_varkw := false
|}.

Definition setup_es_body
    (host username password timeout sniff_on_start sniff_timeout : pyval)
    : coro pyval :=
  _ <- call create_connection []
         [ ("hosts", host);
           ("verify_certs", VBool false);
           ("request_timeout", timeout);
           ("sniff_on_start", sniff_on_start);
           ("sniff_timeout", sniff_timeout);
           ("sniff_on_node_failure", VBool true);
           ("http_auth", VTuple [username; password]) ] ;;
  Return VNone.

Definition setup_es : list pyval -> kwargs -> exn + coro pyval :=
  async_def setup_es_sig (fun vs _ =>
    match vs with
    | [host; username; password; timeout; sniff_on_start;
       sniff_timeout] =>
        setup_es_body host username password timeout sniff_on_start
          sniff_timeout
    | _ => Raise (Exn "SystemError" "bad binding")
    end).

Definition shotdown_es_sig : signature :=
  {| sig_params := []; sig_varkw := false |}.

Definition shotdown_es_body : coro pyval :=
  conn <- call get_connection [] [] ;;
  aw <- call (method conn "close") [] [] ;;
  _ <- await aw ;;
  Return VNone.

Definition shotdown_es : list pyval -> kwargs -> exn + coro pyval :=
  async_def shotdown_es_sig (fun _ _ => shotdown_es_body).

End Helpers.

(** ** Reference notions used in the statements *)

(** The authority of a URL in the generic syntax of RFC 3986: what stands
    between the [//] that follows the scheme and the next [/], [?] or [#].
    It is not part of the helpers; it says how a reader of the URL
    delimits the part that holds the credentials and the host. *)
Fixpoint until_delimiter (s : string) : string :=
  match s with
  | EmptyString => EmptyString
  | String c s' =>
      if (Ascii.eqb c "/" || Ascii.eqb c "?" || Ascii.eqb c "#")%char
      then EmptyString
      else String c (until_delimiter s')
  end.

Fixpoint after_slashes (s : string) : option string :=
  match s with
  | EmptyString => None
  | String c s' =>
      match s' with
      | EmptyString => None
      | String c' rest =>
          if (Ascii.eqb c "/" && Ascii.eqb c' "/")%char
          then Some rest
          else after_slashes s'
      end
  end.

Definition authority (url : string) : option string :=
  match after_slashes url with
  | Some rest => Some (until_delimiter rest)
  | None => None
  end.

(** ** Two small libraries to run the helpers against *)

(** Every call returns an object at once; an awaitable suspends as many
    times as the state says, then resolves to [None]. *)
Definition countdown_lib : library := {|
  lib_state := nat;
  lib_call := fun f _ _ s =>
    match f with
    | init_db => (inr (VObj 1), s)
    | close_db => (inr (VObj 2), s)
    | create_connection => (inr (VObj 3), s)
    | get_connection => (inr (VObj 3), s)
    | method _ _ => (inr (VObj 4), s)
    end;
  lib_send := fun _ s =>
    match s with
    | O => (Resolved VNone, O)
    | S n => (Yielded, n)
    end;
  lib_tick := fun s => s
|}.

(** The service cannot be reached: every call raises. *)
Definition unreachable : exn := Exn "ConnectionError" "unreachable".

Definition down_lib : library := {|
  lib_state := unit;
  lib_call := fun _ _ _ s => (inl unreachable, s);
  lib_send := fun _ s => (Failed unreachable, s);
  lib_tick := fun s => s
|}.

(** ** Vocabulary of the statements *)

(** The three components of what [run], [resume] and [drive] give back. *)
Definition result_of {R S : Type} (x : R * list event * S) : R :=
  fst (fst x).

Definition trace_of {R S : Type} (x : R * list event * S) : list event :=
  snd (fst x).

Definition state_of {R S : Type} (x : R * list event * S) : S :=
  snd x.

(** How the fate of an awaitable becomes the fate of a coroutine that
    awaits it, drops its value and returns [a]. *)
Definition awaited {A : Type} (a : A) (o : option (exn + pyval))
    : option (exn + A) :=
  match o with
  | None => None
  | Some (inl e) => Some (inl e)
  | Some (inr _) => Some (inr a)
  end.

(** The library raised [e] somewhere in the trace. *)
Definition raises (e : exn) (t : list event) : Prop :=
  exists ev, In ev t /\ raised_in ev = Some e.

(** A body that raises nothing of its own. *)
Fixpoint delegating {A : Type} (c : coro A) : Prop :=
  match c with
  | Return _ => True
  | Raise _ => False
  | Call _ _ _ k => forall v, delegating (k v)
  | Await _ k => forall v, delegating (k v)
  end.

(** The same library with other awaitables. *)
Definition with_send (L : library)
    (send : pyval -> lib_state L -> sent * lib_state L) : library := {|
  lib_state := lib_state L;
  lib_call := lib_call L;
  lib_send := send;
  lib_tick := lib_tick L
|}.

(** The keywords [setup_db] writes out in its call of [init_db], for the
    call [setup_db(args, kw)]. *)
Definition pool_options (args : list pyval) (kw : kwargs) : kwargs :=
  [ ("echo", given_or (VBool false) 4 "echo" args kw);
    ("pool_size", given_or (VInt 5) 5 "pool_size" args kw);
    ("max_overflow", given_or (VInt 10) 6 "max_overflow" args kw);
    ("pool_timeout", given_or (VInt 30) 7 "pool_timeout" args kw);
    ("pool_recycle", given_or (VInt 3600) 8 "pool_recycle" args kw) ].

(** The keywords of [create_connection] for the call
    [setup_es(args, kw)] whose three required arguments are given. *)
Definition connection_options (host username password : pyval)
    (args : list pyval) (kw : kwargs) : kwargs :=
  [ ("hosts", host);
    ("verify_certs", VBool false);
    ("request_timeout", given_or (VInt 3) 3 "timeout" args kw);
    ("sniff_on_start", given_or (VBool true) 4 "sniff_on_start" args kw);
    ("sniff_timeout", given_or (VInt 3) 5 "sniff_timeout" args kw);
    ("sniff_on_node_failure", VBool true);
    ("http_auth", VTuple [username; password]) ].

(** Does the character occur in the string? *)
Fixpoint occurs (c : ascii) (s : string) : bool :=
  match s with
  | EmptyString => false
  | String c' s' => Ascii.eqb c' c || occurs c s'
  end.

(** No character that ends the authority of a URL occurs in the string. *)
Definition no_delimiter (s : string) : Prop :=
  occurs "/" s = false /\ occurs "?" s = false /\ occurs "#" s = false.

(** Settles what the binding says of one parameter: the caller's value,
    or the default, or (for a required parameter) a contradiction. *)
Ltac settle_given H :=
  match type of H with
  | match ?g with Some _ => _ | None => _ end =>
      destruct g; [subst | first [discriminate H | injection H as <-]]
  end.

(** * Properties *)

(** ** Argument binding *)

Section Binding.

Variable sg : signature.

Lemma lookup_snoc (name k : string) (v : pyval) (l : kwargs) :
  lookup name (l ++ [(k, v)]) =
  match lookup name l with
  | Some x => Some x
  | None => if String.eqb k name then Some v else None
  end.
Proof.
  induction l as [|[k' v'] l IH]; simpl.
  - reflexivity.
  - destruct (String.eqb k' name); [reflexivity | exact IH].
Qed.

Lemma is_param_true (name : string) :
  is_param sg name = true <-> In name (param_names sg).
Proof.
  unfold is_param. rewrite existsb_exists. split.
  - intros [x [Hin Heq]]. apply String.eqb_eq in Heq. now subst.
  - intros Hin. exists name. split; [exact Hin | apply String.eqb_refl].
Qed.

Lemma surplus_keys_not_param (kw : kwargs) (k : string) (v : pyval) :
  In (k, v) (surplus sg kw) -> is_param sg k = false.
Proof.
  unfold surplus. intros H. apply filter_In in H. destruct H as [_ H].
  simpl in H. now apply negb_true_iff in H.
Qed.

(** The keywords that name a parameter land in the locals, behind what
    is already bound; the others are what [**kwargs] receives. *)
Lemma bind_keywords_inr (kw : kwargs) :
  forall locals extra locals' extra',
    bind_keywords sg kw locals extra = inr (locals', extra') ->
    (forall name, is_param sg name = true ->
       lookup name locals' =
       match lookup name locals with
       | Some x => Some x
       | None => lookup name kw
       end)
    /\ extra' = extra ++ surplus sg kw.
Proof.
  induction kw as [|[k v] kw IH]; intros locals extra locals' extra' H.
  - simpl in H. injection H as <- <-. split.
    + intros name _. now destruct (lookup name locals).
    + now rewrite app_nil_r.
  - simpl in H. unfold surplus. simpl.
    destruct (is_param sg k) eqn:Hk; simpl.
    + destruct (has_key k locals); [discriminate|].
      apply IH in H. destruct H as [Hl He]. split; [|exact He].
      intros name Hn. rewrite (Hl name Hn), lookup_snoc.
      destruct (lookup name locals); [reflexivity|].
      now destruct (String.eqb k name).
    + destruct (sig_varkw sg); [|discriminate].
      destruct (has_key k extra); [discriminate|].
      apply IH in H. destruct H as [Hl He]. split.
      * intros name Hn. rewrite (Hl name Hn).
        destruct (lookup name locals); [reflexivity|].
        destruct (String.eqb k name) eqn:E; [|reflexivity].
        apply String.eqb_eq in E. subst. congruence.
      * rewrite He, <- app_assoc. reflexivity.
Qed.

(** Without [**kwargs] every accepted keyword names a parameter. *)
Lemma bind_keywords_closed (kw : kwargs) :
  forall locals extra locals' extra',
    sig_varkw sg = false ->
    bind_keywords sg kw locals extra = inr (locals', extra') ->
    surplus sg kw = [].
Proof.
  induction kw as [|[k v] kw IH]; intros locals extra locals' extra' Hv H.
  - reflexivity.
  - simpl in H. unfold surplus. simpl.
    destruct (is_param sg k) eqn:Hk; simpl.
    + destruct (has_key k locals); [discriminate|].
      eapply IH; eassumption.
    + rewrite Hv in H. discriminate.
Qed.

Lemma fill_defaults_inr (locals : kwargs) (ps : list param) :
  forall vs,
    fill_defaults ps locals = inr vs ->
    List.length vs = List.length ps /\
    forall i name dflt,
      nth_error ps i = Some (name, dflt) ->
      exists v,
        nth_error vs i = Some v /\
        match lookup name locals with
        | Some x => v = x
        | None => dflt = Some v
        end.
Proof.
  induction ps as [|[n d] ps IH]; intros vs H.
  - simpl in H. injection H as <-. split; [reflexivity|].
    intros [|i] name dflt Hi; discriminate.
  - simpl in H.
    destruct (match lookup n locals with Some v => Some v | None => d end)
      as [v|] eqn:Hslot; [|discriminate].
    destruct (fill_defaults ps locals) as [e|vs'] eqn:Hrec; [discriminate|].
    injection H as <-. destruct (IH vs' eq_refl) as [Hlen Hnth]. split.
    + simpl. now rewrite Hlen.
    + intros [|i] name dflt Hi; simpl in *.
      * injection Hi as <- <-. exists v. split; [reflexivity|].
        destruct (lookup n locals); congruence.
      * now apply Hnth.
Qed.

(** A positional argument is bound to the parameter at its position. *)
Lemma lookup_combine (names : list string) :
  forall (args : list pyval) i name,
    NoDup names ->
    nth_error names i = Some name ->
    lookup name (combine names args) = nth_error args i.
Proof.
  induction names as [|n names IH]; intros args i name Hnd Hi.
  - destruct i; discriminate.
  - inversion Hnd as [|? ? Hnotin Hnd']; subst.
    destruct args as [|a args].
    + simpl. now destruct i.
    + destruct i as [|i]; simpl in *.
      * injection Hi as ->. now rewrite String.eqb_refl.
      * destruct (String.eqb n name) eqn:E.
        -- apply String.eqb_eq in E. subst.
           apply nth_error_In in Hi. contradiction.
        -- now apply IH.
Qed.

Hypothesis names_distinct : NoDup (param_names sg).

(** The binding in one statement: each parameter receives what the
    caller gave for it, or else its default, and [**kwargs] receives
    the caller's other keywords, in order. *)
Lemma bind_args_inr (args : list pyval) (kw : kwargs)
    (vs : list pyval) (extra : kwargs) :
  bind_args sg args kw = inr (vs, extra) ->
  List.length vs = List.length (sig_params sg)
  /\ (forall i name dflt,
        nth_error (sig_params sg) i = Some (name, dflt) ->
        exists v,
          nth_error vs i = Some v /\
          match given i name args kw with
          | Some x => v = x
          | None => dflt = Some v
          end)
  /\ extra = surplus sg kw
  /\ (sig_varkw sg = false -> surplus sg kw = []).
Proof.
  unfold bind_args. intros H.
  destruct (bind_keywords sg kw (bind_positional sg args) [])
    as [e|[locals extra']] eqn:Hkw; [discriminate|].
  destruct (Nat.ltb _ _); [discriminate|].
  destruct (fill_defaults (sig_params sg) locals) as [e|vs'] eqn:Hfd;
    [discriminate|].
  injection H as <- <-.
  pose proof (bind_keywords_inr _ _ _ Hkw) as [Hl He].
  destruct (fill_defaults_inr _ _ Hfd) as [Hlen Hnth].
  split; [exact Hlen|]. split; [|split; [exact He|]].
  - intros i name dflt Hi. destruct (Hnth i name dflt Hi) as [v [Hv Hm]].
    exists v. split; [exact Hv|].
    assert (Hname : nth_error (param_names sg) i = Some name).
    { exact (map_nth_error fst i (sig_params sg) Hi). }
    assert (Hp : is_param sg name = true).
    { apply is_param_true. eapply nth_error_In; eassumption. }
    rewrite (Hl name Hp) in Hm. unfold bind_positional in Hm.
    erewrite lookup_combine in Hm by eassumption.
    unfold given. destruct (nth_error args i); exact Hm.
  - intros Hv. eapply bind_keywords_closed; eassumption.
Qed.

End Binding.

(** Calls that do not fit a signature raise at the call, before any
    coroutine exists. *)
Example setup_db_without_database (format_object : pyval -> string) :
  setup_db format_object [VStr "u"; VStr "p"; VStr "localhost"] [] =
  inl (TypeError "missing required positional argument").
Proof. reflexivity. Qed.

Example setup_db_host_given_twice (format_object : pyval -> string) :
  setup_db format_object
    [VStr "u"; VStr "p"; VStr "localhost"; VStr "mydb"]
    [("host", VStr "other")] =
  inl (TypeError "got multiple values for argument").
Proof. reflexivity. Qed.

Example setup_db_all_by_keyword (format_object : pyval -> string) :
  setup_db format_object []
    [ ("database", VStr "mydb"); ("host", VStr "localhost");
      ("password", VStr "p"); ("username", VStr "u") ] =
  setup_db format_object
    [VStr "u"; VStr "p"; VStr "localhost"; VStr "mydb"] [].
Proof. reflexivity. Qed.

Example setup_es_unknown_keyword :
  setup_es [VStr "https://es:9200"; VStr "elastic"; VStr "s3cret"]
    [("verify_certs", VBool true)] =
  inl (TypeError "got an unexpected keyword argument").
Proof. reflexivity. Qed.

Example setup_es_too_many_arguments :
  setup_es
    [ VStr "https://es:9200"; VStr "elastic"; VStr "s3cret"; VInt 3;
      VBool true; VInt 3; VInt 0 ] [] =
  inl (TypeError "takes fewer positional arguments").
Proof. reflexivity. Qed.

Example shutdown_db_with_argument :
  shutdown_db [VNone] [] = inl (TypeError "takes fewer positional arguments").
Proof. reflexivity. Qed.


(** ** Runs of a coroutine *)

Section Runs.

Variable L : library.

Lemma run_Call (A : Type) (n : nat) (f : callee) (args : list pyval)
    (kw : kwargs) (k : pyval -> coro A) (s : lib_state L) :
  run L (S n) (Call f args kw k) s =
  match lib_call L f args kw s with
  | (inl e, s1) => (Some (inl e), [EvCall f args kw (inl e)], s1)
  | (inr v, s1) =>
      let '(o, t, s2) := run L (S n) (k v) s1 in
      (o, EvCall f args kw (inr v) :: t, s2)
  end.
Proof.
  simpl. destruct (lib_call L f args kw s) as [[e|v] s1]; [reflexivity|].
  destruct (resume L (k v) s1) as [[[c'|a|e] t] s2]; try reflexivity.
  destruct (run L n c' (lib_tick L s2)) as [[o t'] s3]. reflexivity.
Qed.

(** A coroutine that has only [await aw] left lives as long as [aw]. *)
Lemma run_Await_Return (A : Type) (a : A) (aw : pyval) (n : nat) :
  forall s,
    run L n (Await aw (fun _ => Return a)) s =
    let '(o, t, s') := drive L n aw s in (awaited a o, t, s').
Proof.
  induction n as [|n IH]; intros s; simpl.
  - reflexivity.
  - destruct (lib_send L aw s) as [[|v|e] s1]; simpl; try reflexivity.
    rewrite IH. destruct (drive L n aw (lib_tick L s1)) as [[o t] s2].
    reflexivity.
Qed.

(** The trace of an awaitable: suspensions, then at most one end. *)
Lemma drive_trace (aw : pyval) (n : nat) :
  forall s,
    match result_of (drive L n aw s) with
    | None => trace_of (drive L n aw s) = repeat (EvSend aw Yielded) n
    | Some (inr v) =>
        exists k, k < n /\
          trace_of (drive L n aw s) =
          repeat (EvSend aw Yielded) k ++ [EvSend aw (Resolved v)]
    | Some (inl e) =>
        exists k, k < n /\
          trace_of (drive L n aw s) =
          repeat (EvSend aw Yielded) k ++ [EvSend aw (Failed e)]
    end.
Proof.
  unfold result_of, trace_of.
  induction n as [|n IH]; intros s; simpl.
  - reflexivity.
  - destruct (lib_send L aw s) as [[|v|e] s1]; simpl.
    + specialize (IH (lib_tick L s1)).
      destruct (drive L n aw (lib_tick L s1)) as [[[[e|v]|] t] s2];
        simpl in *.
      * destruct IH as [k [Hk ->]]. exists (S k). split; [lia|reflexivity].
      * destruct IH as [k [Hk ->]]. exists (S k). split; [lia|reflexivity].
      * now rewrite IH.
    + exists 0. split; [lia|reflexivity].
    + exists 0. split; [lia|reflexivity].
Qed.

Lemma drive_sends_only (aw : pyval) (n : nat) :
  forall s, forallb is_send (trace_of (drive L n aw s)) = true.
Proof.
  unfold trace_of. induction n as [|n IH]; intros s; simpl.
  - reflexivity.
  - destruct (lib_send L aw s) as [[|v|e] s1]; simpl; try reflexivity.
    specialize (IH (lib_tick L s1)).
    destruct (drive L n aw (lib_tick L s1)) as [[o t] s2]. exact IH.
Qed.

End Runs.

(** ** Errors in a body that raises nothing of its own *)

Section Delegation.

Variable L : library.
Variable A : Type.

Lemma raises_cons_silent (e : exn) (ev : event) (t : list event) :
  raised_in ev = None -> raises e (ev :: t) -> raises e t.
Proof.
  intros Hev [ev' [[<-|Hin] Hr]].
  - congruence.
  - exists ev'. now split.
Qed.

Lemma raises_single (e e' : exn) (ev : event) :
  raised_in ev = Some e -> raises e' [ev] -> e' = e.
Proof.
  intros Hev [ev' [[<-|[]] Hr]]. congruence.
Qed.

Lemma resume_delegating (c : coro A) :
  forall s,
    delegating c ->
    (forall e, result_of (resume L c s) = Raised e ->
       exists pre ev,
         trace_of (resume L c s) = pre ++ [ev] /\ raised_in ev = Some e)
    /\ (forall e, raises e (trace_of (resume L c s)) ->
          result_of (resume L c s) = Raised e)
    /\ (forall c', result_of (resume L c s) = Suspended c' ->
          delegating c').
Proof.
  unfold result_of, trace_of.
  induction c as [a|e0|f args kw k IH|aw k IH]; intros s Hd; simpl in *.
  - repeat split; try discriminate. intros e [ev [[] _]].
  - contradiction.
  - destruct (lib_call L f args kw s) as [[e0|v] s1]; simpl.
    + repeat split; try discriminate.
      * intros e [= <-]. exists [], (EvCall f args kw (inl e0)). now split.
      * intros e H. f_equal. symmetry.
        eapply raises_single; [|exact H]. reflexivity.
    + destruct (IH v s1 (Hd v)) as [H1 [H2 H3]].
      destruct (resume L (k v) s1) as [[o t] s2]; simpl in *.
      repeat split.
      * intros e He. destruct (H1 e He) as [pre [ev [-> Hr]]].
        exists (EvCall f args kw (inr v) :: pre), ev. now split.
      * intros e H. apply H2. eapply raises_cons_silent; [|exact H].
        reflexivity.
      * exact H3.
  - destruct (lib_send L aw s) as [[|v|e0] s1]; simpl.
    + repeat split; try discriminate.
      * intros e H. exfalso. destruct H as [ev [[<-|[]] Hr]]. discriminate.
      * intros c' [= <-]. exact Hd.
    + destruct (IH v s1 (Hd v)) as [H1 [H2 H3]].
      destruct (resume L (k v) s1) as [[o t] s2]; simpl in *.
      repeat split.
      * intros e He. destruct (H1 e He) as [pre [ev [-> Hr]]].
        exists (EvSend aw (Resolved v) :: pre), ev. now split.
      * intros e H. apply H2. eapply raises_cons_silent; [|exact H].
        reflexivity.
      * exact H3.
    + repeat split; try discriminate.
      * intros e [= <-]. exists [], (EvSend aw (Failed e0)). now split.
      * intros e H. f_equal. symmetry.
        eapply raises_single; [|exact H]. reflexivity.
Qed.

(** Over a whole run: the coroutine ends in [e] exactly when the library
    raised [e], and then that is the last thing that happened. *)
Lemma run_delegating (n : nat) :
  forall (c : coro A) s,
    delegating c ->
    (forall e, result_of (run L n c s) = Some (inl e) ->
       exists pre ev,
         trace_of (run L n c s) = pre ++ [ev] /\ raised_in ev = Some e)
    /\ (forall e, raises e (trace_of (run L n c s)) ->
          result_of (run L n c s) = Some (inl e)).
Proof.
  unfold result_of, trace_of.
  induction n as [|n IH]; intros c s Hd; simpl.
  - split; [discriminate|]. intros e [ev [[] _]].
  - destruct (resume_delegating c s Hd) as [H1 [H2 H3]].
    unfold result_of, trace_of in *.
    destruct (resume L c s) as [[[c'|a|e0] t] s1]; simpl in *.
    + destruct (IH c' (lib_tick L s1) (H3 c' eq_refl)) as [G1 G2].
      destruct (run L n c' (lib_tick L s1)) as [[o t'] s2]; simpl in *.
      split.
      * intros e He. destruct (G1 e He) as [pre [ev [-> Hr]]].
        exists (t ++ pre), ev. split; [now rewrite app_assoc|exact Hr].
      * intros e [ev [Hin Hr]]. apply in_app_or in Hin.
        destruct Hin as [Hin|Hin].
        -- assert (Habs : raises e t) by (exists ev; now split).
           apply H2 in Habs. discriminate.
        -- apply G2. exists ev. now split.
    + split; [discriminate|]. intros e H. apply H2 in H. discriminate.
    + split.
      * intros e [= <-]. now apply H1.
      * intros e H. apply H2 in H. congruence.
Qed.

End Delegation.

(** ** What a call of each helper makes *)

Section Calls.

Variable format_object : pyval -> string.

Lemma setup_db_names_distinct : NoDup (param_names setup_db_sig).
Proof.
  unfold param_names. simpl.
  repeat (constructor; [simpl; intuition discriminate|]). constructor.
Qed.

Lemma setup_es_names_distinct : NoDup (param_names setup_es_sig).
Proof.
  unfold param_names. simpl.
  repeat (constructor; [simpl; intuition discriminate|]). constructor.
Qed.

(** [**engine_kwargs] never holds one of the five keywords written out
    in the call of [init_db]: those names are parameters of [setup_db]. *)
Lemma engine_kwargs_disjoint (echo ps mo pt pr : pyval) (kw : kwargs) :
  existsb
    (fun kv => has_key (fst kv)
       [ ("echo", echo); ("pool_size", ps); ("max_overflow", mo);
         ("pool_timeout", pt); ("pool_recycle", pr) ])
    (surplus setup_db_sig kw) = false.
Proof.
  destruct (existsb _ _) eqn:E; [|reflexivity].
  apply existsb_exists in E. destruct E as [[k v] [Hin Hk]].
  apply surplus_keys_not_param in Hin.
  unfold has_key in Hk. cbn [lookup fst] in Hk.
  repeat match type of Hk with
  | context [String.eqb ?a k] =>
      let E := fresh "E" in
      destruct (String.eqb a k) eqn:E;
      [apply String.eqb_eq in E; subst k; discriminate Hin|]
  end.
  discriminate.
Qed.

Lemma setup_db_coroutine (args : list pyval) (kw : kwargs)
    (c : coro pyval) :
  setup_db format_object args kw = inr c ->
  exists username password host database,
    given 0 "username" args kw = Some username
    /\ given 1 "password" args kw = Some password
    /\ given 2 "host" args kw = Some host
    /\ given 3 "database" args kw = Some database
    /\ c = Call init_db
             [VStr (db_url format_object username password host database)]
             (pool_options args kw ++ surplus setup_db_sig kw)
             (fun aw => Await aw (fun _ => Return VNone)).
Proof.
  unfold setup_db, async_def. intros H.
  destruct (bind_args setup_db_sig args kw) as [e|[vs extra]] eqn:Hb;
    [discriminate|].
  injection H as <-.
  destruct (@bind_args_inr _ setup_db_names_distinct _ _ _ _ Hb)
    as [Hlen [Hnth [-> _]]].
  simpl in Hlen.
  destruct vs as [|v0 [|v1 [|v2 [|v3 [|v4 [|v5 [|v6 [|v7 [|v8 [|? ?]]]]]]]]]];
    try discriminate Hlen.
  pose proof (Hnth 0 _ _ eq_refl) as [? [[= <-] H0]].
  pose proof (Hnth 1 _ _ eq_refl) as [? [[= <-] H1]].
  pose proof (Hnth 2 _ _ eq_refl) as [? [[= <-] H2]].
  pose proof (Hnth 3 _ _ eq_refl) as [? [[= <-] H3]].
  pose proof (Hnth 4 _ _ eq_refl) as [? [[= <-] H4]].
  pose proof (Hnth 5 _ _ eq_refl) as [? [[= <-] H5]].
  pose proof (Hnth 6 _ _ eq_refl) as [? [[= <-] H6]].
  pose proof (Hnth 7 _ _ eq_refl) as [? [[= <-] H7]].
  pose proof (Hnth 8 _ _ eq_refl) as [? [[= <-] H8]].
  clear Hnth Hlen Hb.
  exists v0, v1, v2, v3.
  unfold setup_db_body, call_star. rewrite engine_kwargs_disjoint.
  unfold pool_options, given_or.
  settle_given H0. settle_given H1. settle_given H2. settle_given H3.
  settle_given H4; settle_given H5; settle_given H6; settle_given H7;
    settle_given H8; repeat (split; [reflexivity|]); reflexivity.
Qed.

Lemma setup_es_coroutine (args : list pyval) (kw : kwargs)
    (c : coro pyval) :
  setup_es args kw = inr c ->
  exists host username password,
    given 0 "host" args kw = Some host
    /\ given 1 "username" args kw = Some username
    /\ given 2 "password" args kw = Some password
    /\ c = Call create_connection []
             (connection_options host username password args kw)
             (fun _ => Return VNone).
Proof.
  unfold setup_es, async_def. intros H.
  destruct (bind_args setup_es_sig args kw) as [e|[vs extra]] eqn:Hb;
    [discriminate|].
  injection H as <-.
  destruct (@bind_args_inr _ setup_es_names_distinct _ _ _ _ Hb)
    as [Hlen [Hnth _]].
  simpl in Hlen.
  destruct vs as [|v0 [|v1 [|v2 [|v3 [|v4 [|v5 [|? ?]]]]]]];
    try discriminate Hlen.
  pose proof (Hnth 0 _ _ eq_refl) as [? [[= <-] H0]].
  pose proof (Hnth 1 _ _ eq_refl) as [? [[= <-] H1]].
  pose proof (Hnth 2 _ _ eq_refl) as [? [[= <-] H2]].
  pose proof (Hnth 3 _ _ eq_refl) as [? [[= <-] H3]].
  pose proof (Hnth 4 _ _ eq_refl) as [? [[= <-] H4]].
  pose proof (Hnth 5 _ _ eq_refl) as [? [[= <-] H5]].
  clear Hnth Hlen Hb.
  exists v0, v1, v2.
  unfold setup_es_body, connection_options, given_or.
  settle_given H0. settle_given H1. settle_given H2.
  settle_given H3; settle_given H4; settle_given H5;
    repeat (split; [reflexivity|]); reflexivity.
Qed.

(** A [def] without parameters accepts the empty call and no other. *)
Lemma bind_args_nullary (args : list pyval) (kw : kwargs)
    (r : list pyval * kwargs) :
  bind_args {| sig_params := []; sig_varkw := false |} args kw = inr r ->
  args = [] /\ kw = [].
Proof.
  unfold bind_args. destruct kw as [|[k v] kw]; simpl.
  - destruct args; simpl; [now split|discriminate].
  - discriminate.
Qed.

Lemma shutdown_db_coroutine (args : list pyval) (kw : kwargs)
    (c : coro pyval) :
  shutdown_db args kw = inr c <->
  args = [] /\ kw = []
  /\ c = Call close_db [] [] (fun aw => Await aw (fun _ => Return VNone)).
Proof.
  unfold shutdown_db, async_def, shutdown_db_sig. split.
  - destruct (bind_args _ args kw) as [e|[vs extra]] eqn:Hb;
      [discriminate|].
    intros [= <-]. destruct (bind_args_nullary _ _ Hb) as [-> ->].
    repeat split.
  - intros [-> [-> ->]]. reflexivity.
Qed.

Lemma shotdown_es_coroutine (args : list pyval) (kw : kwargs)
    (c : coro pyval) :
  shotdown_es args kw = inr c <->
  args = [] /\ kw = []
  /\ c = Call get_connection [] [] (fun conn =>
           Call (method conn "close") [] [] (fun aw =>
             Await aw (fun _ => Return VNone))).
Proof.
  unfold shotdown_es, async_def, shotdown_es_sig. split.
  - destruct (bind_args _ args kw) as [e|[vs extra]] eqn:Hb;
      [discriminate|].
    intros [= <-]. destruct (bind_args_nullary _ _ Hb) as [-> ->].
    repeat split.
  - intros [-> [-> ->]]. reflexivity.
Qed.

End Calls.

(** ** Traces of the two setup helpers *)

Section Traces.

Variable format_object : pyval -> string.
Variable L : library.

Lemma calls_of_sends (t : list event) :
  forallb is_send t = true -> calls t = [].
Proof.
  unfold calls. induction t as [|ev t IH]; simpl; [reflexivity|].
  intros H. apply andb_true_iff in H. destruct H as [-> H]. simpl. auto.
Qed.

(** A coroutine that calls [f] and awaits what [f] returned. *)
Lemma run_call_then_await (n : nat) (f : callee) (args : list pyval)
    (kw : kwargs) (s : lib_state L) :
  run L (S n) (Call f args kw (fun aw => Await aw (fun _ => Return VNone))) s =
  match lib_call L f args kw s with
  | (inl e, s1) => (Some (inl e), [EvCall f args kw (inl e)], s1)
  | (inr aw, s1) =>
      let '(o, t, s2) := drive L (S n) aw s1 in
      (awaited VNone o, EvCall f args kw (inr aw) :: t, s2)
  end.
Proof.
  rewrite run_Call. destruct (lib_call L f args kw s) as [[e|aw] s1];
    [reflexivity|].
  rewrite run_Await_Return.
  destruct (drive L (S n) aw s1) as [[o t] s2]. reflexivity.
Qed.

(** The trace of such a coroutine: the call, then sends only. *)
Lemma trace_call_then_await (n : nat) (f : callee) (args : list pyval)
    (kw : kwargs) (s : lib_state L) :
  exists r t,
    trace_of
      (run L (S n)
         (Call f args kw (fun aw => Await aw (fun _ => Return VNone))) s) =
    EvCall f args kw r :: t
    /\ r = fst (lib_call L f args kw s)
    /\ forallb is_send t = true.
Proof.
  rewrite run_call_then_await.
  destruct (lib_call L f args kw s) as [[e|aw] s1].
  - exists (inl e), []. repeat split.
  - pose proof (drive_sends_only L aw (S n) s1) as Hs.
    destruct (drive L (S n) aw s1) as [[o t] s2].
    exists (inr aw), t. repeat split. exact Hs.
Qed.

(** What a run of [setup_db] shows at the boundary of the library. *)
Lemma setup_db_trace (args : list pyval) (kw : kwargs) (c : coro pyval)
    (s : lib_state L) (n : nat) :
  setup_db format_object args kw = inr c ->
  exists username password host database r t,
    given 0 "username" args kw = Some username
    /\ given 1 "password" args kw = Some password
    /\ given 2 "host" args kw = Some host
    /\ given 3 "database" args kw = Some database
    /\ trace_of (run L (S n) c s) =
         EvCall init_db
           [VStr (db_url format_object username password host database)]
           (pool_options args kw ++ surplus setup_db_sig kw) r :: t
    /\ forallb is_send t = true.
Proof.
  intros Hc.
  destruct (setup_db_coroutine _ _ _ Hc)
    as [u [p [h [d [Hu [Hp [Hh [Hd ->]]]]]]]].
  destruct (trace_call_then_await n init_db
              [VStr (db_url format_object u p h d)]
              (pool_options args kw ++ surplus setup_db_sig kw) s)
    as [r [t [Ht [_ Hs]]]].
  exists u, p, h, d, r, t. repeat (split; [assumption|]). exact Hs.
Qed.

(** What a run of [setup_es] shows there. *)
Lemma setup_es_trace (args : list pyval) (kw : kwargs) (c : coro pyval) :
  setup_es args kw = inr c ->
  exists host username password,
    given 0 "host" args kw = Some host
    /\ given 1 "username" args kw = Some username
    /\ given 2 "password" args kw = Some password
    /\ forall (s : lib_state L) (n : nat),
       exists r,
         trace_of (run L (S n) c s) =
           [ EvCall create_connection []
               (connection_options host username password args kw) r ].
Proof.
  intros Hc.
  destruct (setup_es_coroutine _ _ Hc) as [h [u [p [Hh [Hu [Hp ->]]]]]].
  exists h, u, p. repeat (split; [assumption|]).
  intros s n. rewrite run_Call.
  destruct (lib_call L create_connection []
              (connection_options h u p args kw) s) as [[e|v] s1].
  - exists (inl e). reflexivity.
  - exists (inr v). reflexivity.
Qed.

End Traces.

(** C1.  For all strings [username], [password], [host] and [database],
    every accepted call of [setup_db] that gives them for the four
    required parameters (by position or by keyword) calls [init_db] with
    one positional argument, the string
    ["postgresql+asyncpg://" ++ username ++ ":" ++ password ++ "@" ++ host
     ++ "/" ++ database], and calls nothing else. *)
Theorem setup_db_builds_connection_url
    (format_object : pyval -> string)
    (username password host database : string)
    (args : list pyval) (kw : kwargs) (c : coro pyval) :
  setup_db format_object args kw = inr c ->
  given 0 "username" args kw = Some (VStr username) ->
  given 1 "password" args kw = Some (VStr password) ->
  given 2 "host" args kw = Some (VStr host) ->
  given 3 "database" args kw = Some (VStr database) ->
  forall (L : library) (s : lib_state L) (n : nat),
  exists options r t,
    trace_of (run L (S n) c s) =
      EvCall init_db
        [VStr ("postgresql+asyncpg://" ++ username ++ ":" ++ password
                 ++ "@" ++ host ++ "/" ++ database)]
        options r :: t
    /\ forallb is_send t = true.
Proof.
  intros Hc Hu Hp Hh Hd L s n.
  destruct (setup_db_trace format_object L _ _ s n Hc)
    as [u [p [h [d [r [t [Hu' [Hp' [Hh' [Hd' [Ht Hs]]]]]]]]]]].
  rewrite Hu in Hu'. rewrite Hp in Hp'. rewrite Hh in Hh'.
  rewrite Hd in Hd'.
  injection Hu' as <-. injection Hp' as <-. injection Hh' as <-.
  injection Hd' as <-.
  exists (pool_options args kw ++ surplus setup_db_sig kw), r, t.
  split; [exact Ht | exact Hs].
Qed.

(** The end-to-end scenario of the specification:
    [setup("u","p","localhost","mydb")]. *)
Lemma setup_db_builds_connection_url_witness :
  let fo : pyval -> string := fun _ => "<object>" in
  let args := [VStr "u"; VStr "p"; VStr "localhost"; VStr "mydb"] in
  let c :=
    setup_db_body fo (VStr "u") (VStr "p") (VStr "localhost") (VStr "mydb")
      (VBool false) (VInt 5) (VInt 10) (VInt 30) (VInt 3600) [] in
  setup_db fo args [] = inr c
  /\ given 0 "username" args [] = Some (VStr "u")
  /\ given 1 "password" args [] = Some (VStr "p")
  /\ given 2 "host" args [] = Some (VStr "localhost")
  /\ given 3 "database" args [] = Some (VStr "mydb")
  /\ (exists options r t,
        trace_of (run countdown_lib 1 c 0) =
          EvCall init_db [VStr "postgresql+asyncpg://u:p@localhost/mydb"]
            options r :: t
        /\ forallb is_send t = true)
  /\ trace_of (run countdown_lib 1 c 0) =
       [ EvCall init_db [VStr "postgresql+asyncpg://u:p@localhost/mydb"]
           [ ("echo", VBool false); ("pool_size", VInt 5);
             ("max_overflow", VInt 10); ("pool_timeout", VInt 30);
             ("pool_recycle", VInt 3600) ]
           (inr (VObj 1));
         EvSend (VObj 1) (Resolved VNone) ].
Proof.
  cbv zeta. repeat (split; [reflexivity|]). split; [|reflexivity].
  exact (@setup_db_builds_connection_url (fun _ => "<object>") "u" "p" "localhost"
           "mydb" [VStr "u"; VStr "p"; VStr "localhost"; VStr "mydb"] [] _
           eq_refl eq_refl eq_refl eq_refl eq_refl countdown_lib 0 0).
Defined.

(** C2.  Every accepted call of [setup_db] whose username, password,
    host and database are strings calls [init_db] with the keywords [echo], [pool_size], [max_overflow], [pool_timeout] and
    [pool_recycle], each holding what the caller gave for the parameter of
    that name (or else its default), followed by every keyword of the
    caller that names no parameter of [setup_db], unchanged and in the
    caller's order; nothing else is called. *)
Theorem setup_db_forwards_options
    (format_object : pyval -> string)
    (username password host database : string)
    (args : list pyval) (kw : kwargs) (c : coro pyval) :
  setup_db format_object args kw = inr c ->
  given 0 "username" args kw = Some (VStr username) ->
  given 1 "password" args kw = Some (VStr password) ->
  given 2 "host" args kw = Some (VStr host) ->
  given 3 "database" args kw = Some (VStr database) ->
  forall (L : library) (s : lib_state L) (n : nat),
  exists url r t,
    trace_of (run L (S n) c s) =
      EvCall init_db [url]
        ([ ("echo", given_or (VBool false) 4 "echo" args kw);
           ("pool_size", given_or (VInt 5) 5 "pool_size" args kw);
           ("max_overflow", given_or (VInt 10) 6 "max_overflow" args kw);
           ("pool_timeout", given_or (VInt 30) 7 "pool_timeout" args kw);
           ("pool_recycle", given_or (VInt 3600) 8 "pool_recycle" args kw) ]
         ++ filter (fun kv => negb (is_param setup_db_sig (fst kv))) kw)
        r :: t
    /\ forallb is_send t = true.
Proof.
  intros Hc _ _ _ _ L s n.
  destruct (setup_db_trace format_object L _ _ s n Hc)
    as [u [p [h [d [r [t [_ [_ [_ [_ [Ht Hs]]]]]]]]]]].
  exists (VStr (db_url format_object u p h d)), r, t.
  split; [exact Ht | exact Hs].
Qed.

(** A call that gives [pool_size] by keyword, [echo] by position and two
    options of the engine. *)
Lemma setup_db_forwards_options_witness :
  let fo : pyval -> string := fun _ => "<object>" in
  let args := [VStr "u"; VStr "p"; VStr "db.local"; VStr "app"; VBool true] in
  let kw :=
    [ ("connect_args", VTuple []); ("pool_size", VInt 20);
      ("pool_pre_ping", VBool true) ] in
  let c :=
    setup_db_body fo (VStr "u") (VStr "p") (VStr "db.local") (VStr "app")
      (VBool true) (VInt 20) (VInt 10) (VInt 30) (VInt 3600)
      [("connect_args", VTuple []); ("pool_pre_ping", VBool true)] in
  setup_db fo args kw = inr c
  /\ given 0 "username" args kw = Some (VStr "u")
  /\ given 1 "password" args kw = Some (VStr "p")
  /\ given 2 "host" args kw = Some (VStr "db.local")
  /\ given 3 "database" args kw = Some (VStr "app")
  /\ exists url r t,
       trace_of (run countdown_lib 3 c 1) =
         EvCall init_db [url]
           [ ("echo", VBool true); ("pool_size", VInt 20);
             ("max_overflow", VInt 10); ("pool_timeout", VInt 30);
             ("pool_recycle", VInt 3600);
             ("connect_args", VTuple []); ("pool_pre_ping", VBool true) ]
           r :: t
       /\ forallb is_send t = true.
Proof.
  cbv zeta. do 5 (split; [reflexivity|]).
  exact (@setup_db_forwards_options (fun _ => "<object>")
           "u" "p" "db.local" "app"
           [VStr "u"; VStr "p"; VStr "db.local"; VStr "app"; VBool true]
           [ ("connect_args", VTuple []); ("pool_size", VInt 20);
             ("pool_pre_ping", VBool true) ] _
           eq_refl eq_refl eq_refl eq_refl eq_refl countdown_lib 1 2).
Defined.

(** C3.  Every accepted call of [setup_es] makes one call, of
    [create_connection], without positional argument and with the
    keywords [hosts] (the host), [verify_certs=False], [request_timeout]
    (the timeout), [sniff_on_start], [sniff_timeout],
    [sniff_on_node_failure=True] and [http_auth] (the pair of the username
    and the password). *)
Theorem setup_es_forwards_options
    (args : list pyval) (kw : kwargs) (c : coro pyval) :
  setup_es args kw = inr c ->
  exists host username password,
    given 0 "host" args kw = Some host
    /\ given 1 "username" args kw = Some username
    /\ given 2 "password" args kw = Some password
    /\ forall (L : library) (s : lib_state L) (n : nat),
       exists r,
         trace_of (run L (S n) c s) =
           [ EvCall create_connection []
               [ ("hosts", host);
                 ("verify_certs", VBool false);
                 ("request_timeout", given_or (VInt 3) 3 "timeout" args kw);
                 ("sniff_on_start",
                    given_or (VBool true) 4 "sniff_on_start" args kw);
                 ("sniff_timeout",
                    given_or (VInt 3) 5 "sniff_timeout" args kw);
                 ("sniff_on_node_failure", VBool true);
                 ("http_auth", VTuple [username; password]) ]
               r ].
Proof.
  intros Hc.
  destruct (setup_es_coroutine _ _ Hc) as [h [u [p [Hh [Hu [Hp ->]]]]]].
  exists h, u, p. repeat (split; [assumption|]).
  intros L s n. rewrite run_Call.
  destruct (lib_call L create_connection []
              (connection_options h u p args kw) s) as [[e|v] s1].
  - exists (inl e). reflexivity.
  - exists (inr v). reflexivity.
Qed.

Lemma setup_es_forwards_options_witness :
  let args := [VStr "https://es:9200"; VStr "elastic"] in
  let kw := [("sniff_timeout", VFloat 4611686018427387904);
             ("password", VStr "s3cret")] in
  let c :=
    setup_es_body (VStr "https://es:9200") (VStr "elastic") (VStr "s3cret")
      (VInt 3) (VBool true) (VFloat 4611686018427387904) in
  setup_es args kw = inr c
  /\ (exists host username password,
       given 0 "host" args kw = Some host
       /\ given 1 "username" args kw = Some username
       /\ given 2 "password" args kw = Some password
       /\ forall (L : library) (s : lib_state L) (n : nat),
          exists r,
            trace_of (run L (S n) c s) =
              [ EvCall create_connection []
                  [ ("hosts", host);
                    ("verify_certs", VBool false);
                    ("request_timeout", VInt 3);
                    ("sniff_on_start", VBool true);
                    ("sniff_timeout", VFloat 4611686018427387904);
                    ("sniff_on_node_failure", VBool true);
                    ("http_auth", VTuple [username; password]) ]
                  r ])
  /\ trace_of (run countdown_lib 1 c 0) =
       [ EvCall create_connection []
           [ ("hosts", VStr "https://es:9200");
             ("verify_certs", VBool false);
             ("request_timeout", VInt 3);
             ("sniff_on_start", VBool true);
             ("sniff_timeout", VFloat 4611686018427387904);
             ("sniff_on_node_failure", VBool true);
             ("http_auth", VTuple [VStr "elastic"; VStr "s3cret"]) ]
           (inr (VObj 3)) ].
Proof.
  cbv zeta. split; [reflexivity|]. split; [|reflexivity].
  exact (@setup_es_forwards_options
           [VStr "https://es:9200"; VStr "elastic"]
           [("sniff_timeout", VFloat 4611686018427387904);
            ("password", VStr "s3cret")] _ eq_refl).
Defined.

(** C4.  In an accepted call of [setup_db] whose username, password,
    host and database are strings, each of [echo], [pool_size],
    [max_overflow], [pool_timeout] and [pool_recycle] that the caller
    gives neither by position nor by keyword reaches [init_db] as
    [False], [5], [10], [30] and [3600]; in an accepted call of
    [setup_es], an omitted [timeout], [sniff_on_start] or [sniff_timeout]
    reaches [create_connection] as [3], [True] and [3]. *)
Theorem defaults_used_when_omitted
    (format_object : pyval -> string)
    (username password host database : string)
    (args : list pyval) (kw : kwargs) (c : coro pyval)
    (args' : list pyval) (kw' : kwargs) (c' : coro pyval) :
  setup_db format_object args kw = inr c ->
  given 0 "username" args kw = Some (VStr username) ->
  given 1 "password" args kw = Some (VStr password) ->
  given 2 "host" args kw = Some (VStr host) ->
  given 3 "database" args kw = Some (VStr database) ->
  setup_es args' kw' = inr c' ->
  forall (L : library) (s : lib_state L) (n : nat),
    (exists url options r t,
       trace_of (run L (S n) c s) = EvCall init_db [url] options r :: t
       /\ (given 4 "echo" args kw = None ->
           lookup "echo" options = Some (VBool false))
       /\ (given 5 "pool_size" args kw = None ->
           lookup "pool_size" options = Some (VInt 5))
       /\ (given 6 "max_overflow" args kw = None ->
           lookup "max_overflow" options = Some (VInt 10))
       /\ (given 7 "pool_timeout" args kw = None ->
           lookup "pool_timeout" options = Some (VInt 30))
       /\ (given 8 "pool_recycle" args kw = None ->
           lookup "pool_recycle" options = Some (VInt 3600)))
    /\ (exists options r,
          trace_of (run L (S n) c' s) =
            [EvCall create_connection [] options r]
          /\ (given 3 "timeout" args' kw' = None ->
              lookup "request_timeout" options = Some (VInt 3))
          /\ (given 4 "sniff_on_start" args' kw' = None ->
              lookup "sniff_on_start" options = Some (VBool true))
          /\ (given 5 "sniff_timeout" args' kw' = None ->
              lookup "sniff_timeout" options = Some (VInt 3))).
Proof.
  intros Hc _ _ _ _ Hc' L s n. split.
  - destruct (setup_db_trace format_object L _ _ s n Hc)
      as [u [p [h [d [r [t [_ [_ [_ [_ [Ht _]]]]]]]]]]].
    eexists _, _, r, t. split; [exact Ht|].
    unfold pool_options, given_or.
    repeat split; intros ->; reflexivity.
  - destruct (setup_es_trace L _ _ Hc') as [h [u [p [_ [_ [_ Hrun]]]]]].
    destruct (Hrun s n) as [r Ht].
    eexists _, r. split; [exact Ht|].
    unfold connection_options, given_or.
    repeat split; intros ->; reflexivity.
Qed.

(** Both helpers called with their required arguments only. *)
Lemma defaults_used_when_omitted_witness :
  let fo : pyval -> string := fun _ => "<object>" in
  let args := [VStr "u"; VStr "p"; VStr "localhost"; VStr "mydb"] in
  let c :=
    setup_db_body fo (VStr "u") (VStr "p") (VStr "localhost") (VStr "mydb")
      (VBool false) (VInt 5) (VInt 10) (VInt 30) (VInt 3600) [] in
  let args' := [VStr "https://es:9200"; VStr "elastic"; VStr "s3cret"] in
  let c' :=
    setup_es_body (VStr "https://es:9200") (VStr "elastic") (VStr "s3cret")
      (VInt 3) (VBool true) (VInt 3) in
  setup_db fo args [] = inr c
  /\ given 0 "username" args [] = Some (VStr "u")
  /\ given 1 "password" args [] = Some (VStr "p")
  /\ given 2 "host" args [] = Some (VStr "localhost")
  /\ given 3 "database" args [] = Some (VStr "mydb")
  /\ setup_es args' [] = inr c'
  /\ given 4 "echo" args [] = None
  /\ given 8 "pool_recycle" args [] = None
  /\ given 3 "timeout" args' [] = None
  /\ (exists url options r t,
        trace_of (run countdown_lib 1 c 0) =
          EvCall init_db [url] options r :: t
        /\ (given 4 "echo" args [] = None ->
            lookup "echo" options = Some (VBool false))
        /\ (given 5 "pool_size" args [] = None ->
            lookup "pool_size" options = Some (VInt 5))
        /\ (given 6 "max_overflow" args [] = None ->
            lookup "max_overflow" options = Some (VInt 10))
        /\ (given 7 "pool_timeout" args [] = None ->
            lookup "pool_timeout" options = Some (VInt 30))
        /\ (given 8 "pool_recycle" args [] = None ->
            lookup "pool_recycle" options = Some (VInt 3600)))
  /\ (exists options r,
        trace_of (run countdown_lib 1 c' 0) =
          [EvCall create_connection [] options r]
        /\ (given 3 "timeout" args' [] = None ->
            lookup "request_timeout" options = Some (VInt 3))
        /\ (given 4 "sniff_on_start" args' [] = None ->
            lookup "sniff_on_start" options = Some (VBool true))
        /\ (given 5 "sniff_timeout" args' [] = None ->
            lookup "sniff_timeout" options = Some (VInt 3))).
Proof.
  cbv zeta. repeat (split; [reflexivity|]).
  exact (@defaults_used_when_omitted (fun _ => "<object>")
           "u" "p" "localhost" "mydb"
           [VStr "u"; VStr "p"; VStr "localhost"; VStr "mydb"] [] _
           [VStr "https://es:9200"; VStr "elastic"; VStr "s3cret"] [] _
           eq_refl eq_refl eq_refl eq_refl eq_refl eq_refl
           countdown_lib 0 0).
Defined.

(** ** Coroutines that end in [await f(...)] *)

Section AwaitedCalls.

Variable L : library.

Lemma calls_call_then_await (n : nat) (f : callee) (args : list pyval)
    (kw : kwargs) (s : lib_state L) :
  calls
    (trace_of
       (run L (S n)
          (Call f args kw (fun aw => Await aw (fun _ => Return VNone))) s)) =
  [EvCall f args kw (fst (lib_call L f args kw s))].
Proof.
  destruct (trace_call_then_await L n f args kw s) as [r [t [-> [-> Hs]]]].
  unfold calls. simpl. fold (calls t). now rewrite (calls_of_sends t Hs).
Qed.

(** The coroutine is done when, and only when, the awaitable it got from
    [f] is done. *)
Lemma result_call_then_await (n : nat) (f : callee) (args : list pyval)
    (kw : kwargs) (s : lib_state L) :
  match lib_call L f args kw s with
  | (inl e, s1) =>
      run L (S n)
        (Call f args kw (fun aw => Await aw (fun _ => Return VNone))) s =
      (Some (inl e), [EvCall f args kw (inl e)], s1)
  | (inr aw, s1) =>
      trace_of
        (run L (S n)
           (Call f args kw (fun aw => Await aw (fun _ => Return VNone))) s) =
      EvCall f args kw (inr aw) :: trace_of (drive L (S n) aw s1)
      /\ result_of
           (run L (S n)
              (Call f args kw (fun aw => Await aw (fun _ => Return VNone)))
              s) =
         awaited VNone (result_of (drive L (S n) aw s1))
      /\ state_of
           (run L (S n)
              (Call f args kw (fun aw => Await aw (fun _ => Return VNone)))
              s) =
         state_of (drive L (S n) aw s1)
  end.
Proof.
  rewrite run_call_then_await.
  destruct (lib_call L f args kw s) as [[e|aw] s1]; [reflexivity|].
  destruct (drive L (S n) aw s1) as [[o t] s2]. repeat split.
Qed.

(** When the coroutine has returned, it returned [None], and the last
    thing that happened is that the awaitable resolved. *)
Lemma returned_call_then_await (n : nat) (f : callee) (args : list pyval)
    (kw : kwargs) (s : lib_state L) (v : pyval) :
  result_of
    (run L (S n)
       (Call f args kw (fun aw => Await aw (fun _ => Return VNone))) s) =
  Some (inr v) ->
  v = VNone
  /\ exists aw x k,
       k <= n
       /\ fst (lib_call L f args kw s) = inr aw
       /\ trace_of
            (run L (S n)
               (Call f args kw (fun aw => Await aw (fun _ => Return VNone)))
               s) =
          EvCall f args kw (inr aw)
            :: repeat (EvSend aw Yielded) k ++ [EvSend aw (Resolved x)].
Proof.
  pose proof (result_call_then_await n f args kw s) as H.
  destruct (lib_call L f args kw s) as [[e|aw] s1].
  - rewrite H. discriminate.
  - destruct H as [Ht [Hr _]]. rewrite Hr, Ht.
    pose proof (drive_trace L aw (S n) s1) as Hd.
    destruct (result_of (drive L (S n) aw s1)) as [[e|x]|];
      cbn [awaited fst]; try discriminate.
    intros [= <-]. split; [reflexivity|].
    destruct Hd as [k [Hk ->]]. exists aw, x, k.
    split; [lia|]. split; reflexivity.
Qed.

End AwaitedCalls.

(** C5.  [shutdown_db] accepts no argument.  A run of it makes exactly
    one call, [close_db()], without positional argument or keyword; if
    that call raises, the run ends there with that error; otherwise the
    run goes on exactly as long as the awaitable [close_db] returned, it
    is done when that awaitable is done, and what it returns is [None]. *)
Theorem shutdown_db_closes_once
    (args : list pyval) (kw : kwargs) (c : coro pyval) :
  shutdown_db args kw = inr c ->
  args = [] /\ kw = []
  /\ forall (L : library) (s : lib_state L) (n : nat),
       calls (trace_of (run L (S n) c s)) =
         [EvCall close_db [] [] (fst (lib_call L close_db [] [] s))]
       /\ match lib_call L close_db [] [] s with
          | (inl e, s1) =>
              run L (S n) c s =
                (Some (inl e), [EvCall close_db [] [] (inl e)], s1)
          | (inr aw, s1) =>
              trace_of (run L (S n) c s) =
                EvCall close_db [] [] (inr aw)
                  :: trace_of (drive L (S n) aw s1)
              /\ result_of (run L (S n) c s) =
                   awaited VNone (result_of (drive L (S n) aw s1))
          end
       /\ forall v,
            result_of (run L (S n) c s) = Some (inr v) ->
            v = VNone
            /\ exists aw x k,
                 k <= n
                 /\ trace_of (run L (S n) c s) =
                      EvCall close_db [] [] (inr aw)
                        :: repeat (EvSend aw Yielded) k
                        ++ [EvSend aw (Resolved x)].
Proof.
  intros Hc. apply shutdown_db_coroutine in Hc.
  destruct Hc as [-> [-> ->]]. repeat split.
  - apply calls_call_then_await.
  - pose proof (result_call_then_await L n close_db [] [] s) as H.
    destruct (lib_call L close_db [] [] s) as [[e|aw] s1]; [exact H|].
    destruct H as [Ht [Hr _]]. now split.
  - now destruct (returned_call_then_await L n close_db [] [] s H).
  - destruct (returned_call_then_await L n close_db [] [] s H)
      as [_ [aw [x [k [Hk [_ Ht]]]]]].
    exists aw, x, k. now split.
Qed.

(** The empty call, run against a library whose awaitables suspend
    twice. *)
Lemma shutdown_db_closes_once_witness :
  shutdown_db [] [] = inr shutdown_db_body
  /\ calls (trace_of (run countdown_lib 3 shutdown_db_body 2)) =
       [EvCall close_db [] [] (inr (VObj 2))]
  /\ run countdown_lib 3 shutdown_db_body 2 =
       (Some (inr VNone),
        [ EvCall close_db [] [] (inr (VObj 2));
          EvSend (VObj 2) Yielded; EvSend (VObj 2) Yielded;
          EvSend (VObj 2) (Resolved VNone) ], 0)
  /\ result_of (run countdown_lib 2 shutdown_db_body 2) = None.
Proof.
  split; [reflexivity|].
  split; [|split; reflexivity].
  exact (proj1 (proj2 (proj2 (@shutdown_db_closes_once [] [] _ eq_refl))
                 countdown_lib 2 2)).
Defined.

(** C6.  [shotdown_es] accepts no argument.  A run of it first calls
    [get_connection()] without any argument, so that the registry answers
    with the connection of its default alias.  If that call raises, the
    run ends there.  Otherwise the run makes exactly one more call, the
    method [close()] of the connection it was given, awaits what [close]
    returned, and is done when that awaitable is done; no method of any
    other object is called. *)
Theorem shotdown_es_closes_default_connection
    (args : list pyval) (kw : kwargs) (c : coro pyval) :
  shotdown_es args kw = inr c ->
  args = [] /\ kw = []
  /\ forall (L : library) (s : lib_state L) (n : nat),
       match lib_call L get_connection [] [] s with
       | (inl e, s1) =>
           run L (S n) c s =
             (Some (inl e), [EvCall get_connection [] [] (inl e)], s1)
       | (inr conn, s1) =>
           calls (trace_of (run L (S n) c s)) =
             [ EvCall get_connection [] [] (inr conn);
               EvCall (method conn "close") [] []
                 (fst (lib_call L (method conn "close") [] [] s1)) ]
           /\ match lib_call L (method conn "close") [] [] s1 with
              | (inl e, s2) =>
                  run L (S n) c s =
                    (Some (inl e),
                     [ EvCall get_connection [] [] (inr conn);
                       EvCall (method conn "close") [] [] (inl e) ], s2)
              | (inr aw, s2) =>
                  trace_of (run L (S n) c s) =
                    EvCall get_connection [] [] (inr conn)
                      :: EvCall (method conn "close") [] [] (inr aw)
                      :: trace_of (drive L (S n) aw s2)
                  /\ result_of (run L (S n) c s) =
                       awaited VNone (result_of (drive L (S n) aw s2))
              end
       end.
Proof.
  intros Hc. apply shotdown_es_coroutine in Hc.
  destruct Hc as [-> [-> ->]]. split; [reflexivity|split; [reflexivity|]].
  intros L s n. rewrite run_Call.
  destruct (lib_call L get_connection [] [] s) as [[e|conn] s1];
    [reflexivity|].
  pose proof (calls_call_then_await L n (method conn "close") [] [] s1)
    as Hcalls.
  pose proof (result_call_then_await L n (method conn "close") [] [] s1)
    as Hres.
  destruct (lib_call L (method conn "close") [] [] s1) as [[e|aw] s2].
  - rewrite Hres in *. split; reflexivity.
  - destruct Hres as [Ht [Hr _]].
    destruct (run L (S n)
                (Call (method conn "close") [] []
                   (fun aw => Await aw (fun _ => Return VNone))) s1)
      as [[o t] s3].
    unfold trace_of, result_of in *. simpl in *.
    split; [|split].
    + unfold calls in *. simpl. now rewrite Hcalls.
    + now rewrite Ht.
    + exact Hr.
Qed.

Lemma shotdown_es_closes_default_connection_witness :
  shotdown_es [] [] = inr shotdown_es_body
  /\ run countdown_lib 2 shotdown_es_body 1 =
       (Some (inr VNone),
        [ EvCall get_connection [] [] (inr (VObj 3));
          EvCall (method (VObj 3) "close") [] [] (inr (VObj 4));
          EvSend (VObj 4) Yielded;
          EvSend (VObj 4) (Resolved VNone) ], 0)
  /\ calls (trace_of (run countdown_lib 2 shotdown_es_body 1)) =
       [ EvCall get_connection [] [] (inr (VObj 3));
         EvCall (method (VObj 3) "close") [] [] (inr (VObj 4)) ]
  /\ run down_lib 2 shotdown_es_body tt =
       (Some (inl unreachable),
        [EvCall get_connection [] [] (inl unreachable)], tt).
Proof.
  split; [reflexivity|]. split; [reflexivity|]. split.
  - exact (proj1 (proj2 (proj2 (@shotdown_es_closes_default_connection
                                  [] [] _ eq_refl)) countdown_lib 1 1)).
  - reflexivity.
Defined.

(** C7.  In a run of the coroutine made by an accepted call of any of
    the four helpers (for [setup_db]: a call whose username, password,
    host and database are strings), the coroutine ends by raising [e] if
    and only if a
    call into the library, or an awaitable of the library, raised [e];
    and then that is the last event of the run: the same exception, and
    nothing attempted after it. *)
Theorem library_errors_propagate_unchanged
    (format_object : pyval -> string)
    (args : list pyval) (kw : kwargs) (c : coro pyval) :
  (setup_db format_object args kw = inr c
   /\ exists username password host database : string,
        given 0 "username" args kw = Some (VStr username)
        /\ given 1 "password" args kw = Some (VStr password)
        /\ given 2 "host" args kw = Some (VStr host)
        /\ given 3 "database" args kw = Some (VStr database))
  \/ shutdown_db args kw = inr c
  \/ setup_es args kw = inr c
  \/ shotdown_es args kw = inr c ->
  forall (L : library) (s : lib_state L) (n : nat) (e : exn),
    (result_of (run L n c s) = Some (inl e) <->
     raises e (trace_of (run L n c s)))
    /\ (result_of (run L n c s) = Some (inl e) ->
        exists pre ev,
          trace_of (run L n c s) = pre ++ [ev] /\ raised_in ev = Some e).
Proof.
  intros Hc L s n e.
  assert (Hd : delegating c).
  { destruct Hc as [[Hc _]|[Hc|[Hc|Hc]]].
    - destruct (setup_db_coroutine _ _ _ Hc)
        as [u [p [h [d [_ [_ [_ [_ ->]]]]]]]].
      simpl. auto.
    - apply shutdown_db_coroutine in Hc. destruct Hc as [_ [_ ->]].
      simpl. auto.
    - destruct (setup_es_coroutine _ _ Hc) as [h [u [p [_ [_ [_ ->]]]]]].
      simpl. auto.
    - apply shotdown_es_coroutine in Hc. destruct Hc as [_ [_ ->]].
      simpl. auto. }
  destruct (run_delegating L n c s Hd) as [H1 H2].
  split; [split|].
  - intros He. destruct (H1 e He) as [pre [ev [Ht Hr]]].
    exists ev. split; [|exact Hr]. rewrite Ht. apply in_or_app.
    right. now left.
  - apply H2.
  - apply H1.
Qed.

(** [setup_db] against a service that cannot be reached. *)
Lemma library_errors_propagate_unchanged_witness :
  let fo : pyval -> string := fun _ => "<object>" in
  let args := [VStr "u"; VStr "p"; VStr "localhost"; VStr "mydb"] in
  let c :=
    setup_db_body fo (VStr "u") (VStr "p") (VStr "localhost") (VStr "mydb")
      (VBool false) (VInt 5) (VInt 10) (VInt 30) (VInt 3600) [] in
  ((setup_db fo args [] = inr c
    /\ exists username password host database : string,
         given 0 "username" args [] = Some (VStr username)
         /\ given 1 "password" args [] = Some (VStr password)
         /\ given 2 "host" args [] = Some (VStr host)
         /\ given 3 "database" args [] = Some (VStr database))
   \/ shutdown_db args [] = inr c
   \/ setup_es args [] = inr c
   \/ shotdown_es args [] = inr c)
  /\ result_of (run down_lib 1 c tt) = Some (inl unreachable)
  /\ raises unreachable (trace_of (run down_lib 1 c tt)).
Proof.
  cbv zeta.
  assert (Hcall :
    setup_db (fun _ => "<object>")
      [VStr "u"; VStr "p"; VStr "localhost"; VStr "mydb"] [] =
    inr (setup_db_body (fun _ => "<object>") (VStr "u") (VStr "p")
           (VStr "localhost") (VStr "mydb") (VBool false) (VInt 5)
           (VInt 10) (VInt 30) (VInt 3600) [])
    /\ exists username password host database : string,
         given 0 "username"
           [VStr "u"; VStr "p"; VStr "localhost"; VStr "mydb"] [] =
           Some (VStr username)
         /\ given 1 "password"
              [VStr "u"; VStr "p"; VStr "localhost"; VStr "mydb"] [] =
            Some (VStr password)
         /\ given 2 "host"
              [VStr "u"; VStr "p"; VStr "localhost"; VStr "mydb"] [] =
            Some (VStr host)
         /\ given 3 "database"
              [VStr "u"; VStr "p"; VStr "localhost"; VStr "mydb"] [] =
            Some (VStr database)).
  { split; [reflexivity|].
    exists "u", "p", "localhost", "mydb". repeat split. }
  split; [left; exact Hcall|]. split; [reflexivity|].
  exact (proj1 (proj1 (@library_errors_propagate_unchanged (fun _ => "<object>")
                         [VStr "u"; VStr "p"; VStr "localhost"; VStr "mydb"]
                         [] _ (or_introl Hcall) down_lib tt 1
                         unreachable))
               eq_refl).
Defined.

(** C8.  A run of [setup_db], called with a username, a password, a host
    and a database that are strings, calls [init_db] and, unless that call
    raises, goes on exactly as long as the awaitable [init_db] returned:
    resumption for resumption it is suspended when the awaitable is
    suspended, fails when it fails, and returns (then [None]) when it has
    resolved.  So whenever [setup_db] has returned, the last event is the
    resolution of that awaitable. *)
Theorem setup_db_waits_for_init_db
    (format_object : pyval -> string)
    (username password host database : string)
    (args : list pyval) (kw : kwargs) (c : coro pyval) :
  setup_db format_object args kw = inr c ->
  given 0 "username" args kw = Some (VStr username) ->
  given 1 "password" args kw = Some (VStr password) ->
  given 2 "host" args kw = Some (VStr host) ->
  given 3 "database" args kw = Some (VStr database) ->
  forall (L : library) (s : lib_state L) (n : nat),
  exists url options,
    match lib_call L init_db [url] options s with
    | (inl e, s1) =>
        run L (S n) c s =
          (Some (inl e), [EvCall init_db [url] options (inl e)], s1)
    | (inr aw, s1) =>
        trace_of (run L (S n) c s) =
          EvCall init_db [url] options (inr aw)
            :: trace_of (drive L (S n) aw s1)
        /\ result_of (run L (S n) c s) =
             awaited VNone (result_of (drive L (S n) aw s1))
    end
    /\ forall v,
         result_of (run L (S n) c s) = Some (inr v) ->
         v = VNone
         /\ exists aw x k,
              k <= n
              /\ trace_of (run L (S n) c s) =
                   EvCall init_db [url] options (inr aw)
                     :: repeat (EvSend aw Yielded) k
                     ++ [EvSend aw (Resolved x)].
Proof.
  intros Hc _ _ _ _ L s n.
  destruct (setup_db_coroutine _ _ _ Hc)
    as [u [p [h [d [_ [_ [_ [_ ->]]]]]]]].
  exists (VStr (db_url format_object u p h d)),
    (pool_options args kw ++ surplus setup_db_sig kw).
  split.
  - pose proof (result_call_then_await L n init_db
                  [VStr (db_url format_object u p h d)]
                  (pool_options args kw ++ surplus setup_db_sig kw) s) as H.
    destruct (lib_call L init_db _ _ s) as [[e|aw] s1]; [exact H|].
    destruct H as [Ht [Hr _]]. now split.
  - intros v Hv.
    destruct (returned_call_then_await L n init_db _ _ s Hv)
      as [-> [aw [x [k [Hk [_ Ht]]]]]].
    split; [reflexivity|]. exists aw, x, k. now split.
Qed.

(** An initializer that suspends twice: [setup_db] is still suspended
    after two resumptions and has returned after the third. *)
Lemma setup_db_waits_for_init_db_witness :
  let fo : pyval -> string := fun _ => "<object>" in
  let args := [VStr "u"; VStr "p"; VStr "localhost"; VStr "mydb"] in
  let c :=
    setup_db_body fo (VStr "u") (VStr "p") (VStr "localhost") (VStr "mydb")
      (VBool false) (VInt 5) (VInt 10) (VInt 30) (VInt 3600) [] in
  setup_db fo args [] = inr c
  /\ given 0 "username" args [] = Some (VStr "u")
  /\ given 1 "password" args [] = Some (VStr "p")
  /\ given 2 "host" args [] = Some (VStr "localhost")
  /\ given 3 "database" args [] = Some (VStr "mydb")
  /\ result_of (drive countdown_lib 2 (VObj 1) 2) = None
  /\ result_of (run countdown_lib 2 c 2) = None
  /\ result_of (drive countdown_lib 3 (VObj 1) 2) = Some (inr VNone)
  /\ result_of (run countdown_lib 3 c 2) = Some (inr VNone)
  /\ exists url options,
       match lib_call countdown_lib init_db [url] options 2 with
       | (inl e, s1) =>
           run countdown_lib 3 c 2 =
             (Some (inl e), [EvCall init_db [url] options (inl e)], s1)
       | (inr aw, s1) =>
           trace_of (run countdown_lib 3 c 2) =
             EvCall init_db [url] options (inr aw)
               :: trace_of (drive countdown_lib 3 aw s1)
           /\ result_of (run countdown_lib 3 c 2) =
                awaited VNone (result_of (drive countdown_lib 3 aw s1))
       end
       /\ forall v,
            result_of (run countdown_lib 3 c 2) = Some (inr v) ->
            v = VNone
            /\ exists aw x k,
                 k <= 2
                 /\ trace_of (run countdown_lib 3 c 2) =
                      EvCall init_db [url] options (inr aw)
                        :: repeat (EvSend aw Yielded) k
                        ++ [EvSend aw (Resolved x)].
Proof.
  cbv zeta. repeat (split; [reflexivity|]).
  exact (@setup_db_waits_for_init_db (fun _ => "<object>")
           "u" "p" "localhost" "mydb"
           [VStr "u"; VStr "p"; VStr "localhost"; VStr "mydb"] [] _
           eq_refl eq_refl eq_refl eq_refl eq_refl countdown_lib 2 2).
Defined.

(** C9.  The coroutine made by an accepted call of [setup_es] is over
    after its first resumption: it makes the one call of
    [create_connection], sends to no awaitable and is never suspended.
    If the call returns, whatever it returns, the coroutine returns
    [None]; if the call raises, the coroutine raises that error.  What
    the awaitables of the library would do (resolve, suspend or fail) has
    no influence on the run. *)
Theorem setup_es_never_awaits
    (args : list pyval) (kw : kwargs) (c : coro pyval) :
  setup_es args kw = inr c ->
  forall (L : library) (s : lib_state L),
    (exists options,
       match lib_call L create_connection [] options s with
       | (inl e, s1) =>
           resume L c s =
             (Raised e, [EvCall create_connection [] options (inl e)], s1)
       | (inr conn, s1) =>
           resume L c s =
             (Finished VNone,
              [EvCall create_connection [] options (inr conn)], s1)
       end)
    /\ (forall rest, result_of (resume L c s) <> Suspended rest)
    /\ filter is_send (trace_of (resume L c s)) = []
    /\ (forall n, run L (S n) c s = run L 1 c s)
    /\ (forall send, resume (with_send L send) c s = resume L c s).
Proof.
  intros Hc L s.
  destruct (setup_es_coroutine _ _ Hc) as [h [u [p [_ [_ [_ ->]]]]]].
  split; [|split; [|split; [|split]]].
  - exists (connection_options h u p args kw). cbn [resume].
    destruct (lib_call L create_connection []
                (connection_options h u p args kw) s) as [[e|v] s1];
      reflexivity.
  - intros rest. cbn [resume].
    destruct (lib_call L create_connection []
                (connection_options h u p args kw) s) as [[e|v] s1];
      discriminate.
  - cbn [resume].
    destruct (lib_call L create_connection []
                (connection_options h u p args kw) s) as [[e|v] s1];
      reflexivity.
  - intros n. cbn [run resume].
    destruct (lib_call L create_connection []
                (connection_options h u p args kw) s) as [[e|v] s1];
      reflexivity.
  - intros send. reflexivity.
Qed.

(** A registry that hands out a connection although nothing answers on
    the other side: every awaitable of the library would fail, and
    [setup_es] returns [None] all the same. *)
Lemma setup_es_never_awaits_witness :
  let args := [VStr "https://es:9200"; VStr "elastic"; VStr "s3cret"] in
  let c :=
    setup_es_body (VStr "https://es:9200") (VStr "elastic") (VStr "s3cret")
      (VInt 3) (VBool true) (VInt 3) in
  let deaf := with_send countdown_lib (fun _ s => (Failed unreachable, s)) in
  setup_es args [] = inr c
  /\ result_of (drive deaf 1 (VObj 3) 0) = Some (inl unreachable)
  /\ result_of (resume deaf c 0) = Finished VNone
  /\ filter is_send (trace_of (resume deaf c 0)) = [].
Proof.
  cbv zeta. repeat (split; [reflexivity|]).
  exact (proj1 (proj2 (proj2
           (@setup_es_never_awaits
              [VStr "https://es:9200"; VStr "elastic"; VStr "s3cret"] [] _
              eq_refl
              (with_send countdown_lib (fun _ s => (Failed unreachable, s)))
              0)))).
Defined.

(** C10.  For strings, the URL built by [setup_db] is the plain
    concatenation of the template and the four values: nothing is
    escaped.  Hence a password with an [@] is not recoverable: the
    credentials [("u", "p@q")] at host ["h"] and [("u", "p")] at host
    ["q@h"] give the same URL and the same call of [init_db], so that no
    decoder of the URL gives back the four values of every call.  And a
    password with a [/] ends the authority of the URL, as RFC 3986
    delimits it, in the middle of the password. *)
Theorem db_url_is_not_escaped (format_object : pyval -> string) :
  (forall username password host database : string,
     db_url format_object (VStr username) (VStr password) (VStr host)
       (VStr database) =
     ("postgresql+asyncpg://" ++ username ++ ":" ++ password ++ "@" ++ host
        ++ "/" ++ database)%string)
  /\ db_url format_object (VStr "u") (VStr "p@q") (VStr "h") (VStr "d") =
     db_url format_object (VStr "u") (VStr "p") (VStr "q@h") (VStr "d")
  /\ setup_db format_object
       [VStr "u"; VStr "p@q"; VStr "h"; VStr "d"] [] =
     setup_db format_object
       [VStr "u"; VStr "p"; VStr "q@h"; VStr "d"] []
  /\ (forall decode : string -> option (string * string * string * string),
        ~ (forall username password host database : string,
             decode
               (db_url format_object (VStr username) (VStr password)
                  (VStr host) (VStr database)) =
             Some (username, password, host, database)))
  /\ authority
       (db_url format_object (VStr "u") (VStr "p/q") (VStr "h") (VStr "d")) =
     Some "u:p"
  /\ authority
       (db_url format_object (VStr "u") (VStr "p") (VStr "h") (VStr "d")) =
     Some "u:p@h".
Proof.
  split; [reflexivity|]. split; [reflexivity|]. split; [reflexivity|].
  split; [|split; reflexivity].
  intros decode H.
  pose proof (H "u" "p@q" "h" "d") as H1.
  pose proof (H "u" "p" "q@h" "d") as H2.
  change (db_url format_object (VStr "u") (VStr "p") (VStr "q@h") (VStr "d"))
    with (db_url format_object (VStr "u") (VStr "p@q") (VStr "h") (VStr "d"))
    in H2.
  rewrite H1 in H2. discriminate H2.
Qed.

(** * Further properties of the helpers *)

(** ** Which calls a signature accepts *)

Section Acceptance.

Variable sg : signature.

Lemma lookup_None (name : string) (kw : kwargs) :
  lookup name kw = None <-> ~ In name (map fst kw).
Proof.
  induction kw as [|[k v] kw IH]; simpl.
  - split; [intros _ []|reflexivity].
  - destruct (String.eqb k name) eqn:E.
    + apply String.eqb_eq in E. subst. split; [discriminate|].
      intros H. exfalso. apply H. now left.
    + apply String.eqb_neq in E. rewrite IH. split.
      * intros H [Hk|Hin]; [now apply E|now apply H].
      * intros H Hin. apply H. now right.
Qed.

Lemma lookup_In (name : string) (v : pyval) (kw : kwargs) :
  NoDup (map fst kw) -> In (name, v) kw -> lookup name kw = Some v.
Proof.
  induction kw as [|[k w] kw IH]; simpl; intros Hnd Hin; [contradiction|].
  inversion Hnd as [|? ? Hnotin Hnd']; subst.
  destruct Hin as [[= -> ->]|Hin].
  - now rewrite String.eqb_refl.
  - destruct (String.eqb k name) eqn:E.
    + apply String.eqb_eq in E. subst. exfalso. apply Hnotin.
      apply (in_map fst) in Hin. exact Hin.
    + now apply IH.
Qed.

Lemma has_key_false (name : string) (kw : kwargs) :
  has_key name kw = false <-> lookup name kw = None.
Proof.
  unfold has_key. destruct (lookup name kw); split; congruence.
Qed.

Lemma lookup_snoc_None (name k : string) (v : pyval) (l : kwargs) :
  lookup name (l ++ [(k, v)]) = None <-> lookup name l = None /\ k <> name.
Proof.
  rewrite lookup_snoc. destruct (lookup name l).
  - split; [discriminate|]. intros [H _]. discriminate.
  - destruct (String.eqb k name) eqn:E.
    + apply String.eqb_eq in E. split; [discriminate|]. intros [_ H].
      contradiction.
    + apply String.eqb_neq in E. split; [now split|reflexivity].
Qed.

(** The keywords are accepted exactly when no keyword is written twice,
    none names a parameter that is already bound, and none is unknown
    unless there is a [**kwargs] to receive it. *)
Lemma bind_keywords_accepts (kw : kwargs) :
  forall locals extra,
    (exists r, bind_keywords sg kw locals extra = inr r) <->
    NoDup (map fst kw)
    /\ (forall k, In k (map fst kw) -> is_param sg k = true ->
          lookup k locals = None)
    /\ (forall k, In k (map fst kw) -> is_param sg k = false ->
          sig_varkw sg = true /\ lookup k extra = None).
Proof.
  induction kw as [|[k v] kw IH]; intros locals extra; simpl.
  - split.
    + intros _. split; [constructor|]. split; intros k [].
    + intros _. eexists. reflexivity.
  - destruct (is_param sg k) eqn:Hk.
    + destruct (has_key k locals) eqn:Hh.
      * split; [intros [r H]; discriminate|].
        intros [_ [H _]]. specialize (H k (or_introl eq_refl) Hk).
        apply has_key_false in H. congruence.
      * apply has_key_false in Hh. rewrite IH. split.
        -- intros [Hnd [Hp Hx]]. split; [|split].
           ++ constructor; [|exact Hnd]. intros Hin.
              specialize (Hp k Hin Hk). apply lookup_snoc_None in Hp.
              destruct Hp as [_ Hp]. now apply Hp.
           ++ intros k' [<-|Hin] Hk'; [exact Hh|].
              specialize (Hp k' Hin Hk'). apply lookup_snoc_None in Hp.
              tauto.
           ++ intros k' [<-|Hin] Hk'; [congruence|]. now apply Hx.
        -- intros [Hnd [Hp Hx]].
           inversion Hnd as [|? ? Hnotin Hnd']; subst. split; [|split].
           ++ exact Hnd'.
           ++ intros k' Hin Hk'. apply lookup_snoc_None. split.
              ** apply Hp; [now right|exact Hk'].
              ** intros ->. contradiction.
           ++ intros k' Hin Hk'. apply Hx; [now right|exact Hk'].
    + destruct (sig_varkw sg) eqn:Hv.
      * destruct (has_key k extra) eqn:Hh.
        -- split; [intros [r H]; discriminate|].
           intros [_ [_ H]]. destruct (H k (or_introl eq_refl) Hk) as [_ H'].
           apply has_key_false in H'. congruence.
        -- apply has_key_false in Hh. rewrite IH. split.
           ++ intros [Hnd [Hp Hx]]. split; [|split].
              ** constructor; [|exact Hnd]. intros Hin.
                 destruct (Hx k Hin Hk) as [_ Hx'].
                 apply lookup_snoc_None in Hx'. destruct Hx' as [_ Hx'].
                 now apply Hx'.
              ** intros k' [<-|Hin] Hk'; [congruence|]. now apply Hp.
              ** intros k' [<-|Hin] Hk'; [now split|].
                 destruct (Hx k' Hin Hk') as [_ Hx'].
                 apply lookup_snoc_None in Hx'. tauto.
           ++ intros [Hnd [Hp Hx]].
              inversion Hnd as [|? ? Hnotin Hnd']; subst. split; [|split].
              ** exact Hnd'.
              ** intros k' Hin Hk'. apply Hp; [now right|exact Hk'].
              ** intros k' Hin Hk'. split; [reflexivity|].
                 apply lookup_snoc_None. split.
                 --- apply Hx; [now right|exact Hk'].
                 --- intros ->. contradiction.
      * split; [intros [r H]; discriminate|].
        intros [_ [_ H]]. destruct (H k (or_introl eq_refl) Hk) as [H' _].
        discriminate.
Qed.

(** The defaults fill every gap exactly when no required parameter is
    left unbound. *)
Lemma fill_defaults_accepts (locals : kwargs) (ps : list param) :
  (exists vs, fill_defaults ps locals = inr vs) <->
  (forall name, In (name, None) ps -> lookup name locals <> None).
Proof.
  induction ps as [|[n d] ps IH]; simpl.
  - split; [intros _ name []|]. intros _. eexists. reflexivity.
  - split.
    + intros [vs H] name [[= -> ->]|Hin].
      * destruct (lookup name locals); [discriminate|discriminate H].
      * apply IH; [|exact Hin].
        destruct (match lookup n locals with Some v => Some v | None => d end);
          [|discriminate].
        destruct (fill_defaults ps locals); [discriminate|]. eexists.
        reflexivity.
    + intros H.
      assert (Hrec : exists vs, fill_defaults ps locals = inr vs).
      { apply IH. intros name Hin. apply H. now right. }
      destruct Hrec as [vs ->].
      destruct (lookup n locals) eqn:El; [eexists; reflexivity|].
      destruct d; [eexists; reflexivity|].
      exfalso. apply (H n); [now left|exact El].
Qed.

(** Whatever a binding raises is a [TypeError]. *)
Lemma bind_keywords_inl (kw : kwargs) :
  forall locals extra e,
    bind_keywords sg kw locals extra = inl e -> exists msg, e = TypeError msg.
Proof.
  induction kw as [|[k v] kw IH]; intros locals extra e; simpl.
  - discriminate.
  - destruct (is_param sg k).
    + destruct (has_key k locals); [intros [= <-]; eexists; reflexivity|].
      apply IH.
    + destruct (sig_varkw sg); [|intros [= <-]; eexists; reflexivity].
      destruct (has_key k extra); [intros [= <-]; eexists; reflexivity|].
      apply IH.
Qed.

Lemma fill_defaults_inl (locals : kwargs) (ps : list param) (e : exn) :
  fill_defaults ps locals = inl e -> exists msg, e = TypeError msg.
Proof.
  induction ps as [|[n d] ps IH]; simpl; [discriminate|].
  destruct (match lookup n locals with Some v => Some v | None => d end);
    [|intros [= <-]; eexists; reflexivity].
  destruct (fill_defaults ps locals); [|discriminate].
  intros [= <-]. now apply IH.
Qed.

Lemma bind_args_inl (args : list pyval) (kw : kwargs) (e : exn) :
  bind_args sg args kw = inl e -> exists msg, e = TypeError msg.
Proof.
  unfold bind_args.
  destruct (bind_keywords sg kw (bind_positional sg args) [])
    as [e'|[locals extra]] eqn:Hkw.
  - intros [= <-]. eapply bind_keywords_inl. exact Hkw.
  - destruct (Nat.ltb _ _); [intros [= <-]; eexists; reflexivity|].
    destruct (fill_defaults (sig_params sg) locals) eqn:Hfd; [|discriminate].
    intros [= <-]. eapply fill_defaults_inl. exact Hfd.
Qed.

End Acceptance.

Section AcceptedCalls.

Variable sg : signature.
Hypothesis names_distinct : NoDup (param_names sg).

Lemma lookup_Some_In (name : string) (v : pyval) (kw : kwargs) :
  lookup name kw = Some v -> In (name, v) kw.
Proof.
  induction kw as [|[k w] kw IH]; simpl; [discriminate|].
  destruct (String.eqb k name) eqn:E.
  - apply String.eqb_eq in E. intros [= ->]. subst. now left.
  - intros H. right. now apply IH.
Qed.

(** A call fits a signature exactly when it has no more positional
    arguments than there are parameters, writes no keyword twice, gives
    no parameter both by position and by keyword, uses an unknown keyword
    only if there is a [**kwargs], and gives every required parameter. *)
Lemma bind_args_accepts (args : list pyval) (kw : kwargs) :
  (exists r, bind_args sg args kw = inr r) <->
  List.length args <= List.length (sig_params sg)
  /\ NoDup (map fst kw)
  /\ (forall i name,
        nth_error (param_names sg) i = Some name ->
        i < List.length args -> lookup name kw = None)
  /\ (sig_varkw sg = false ->
      forall k, In k (map fst kw) -> is_param sg k = true)
  /\ (forall i name,
        nth_error (sig_params sg) i = Some (name, None) ->
        given i name args kw <> None).
Proof.
  unfold bind_args. split.
  - intros [r H].
    destruct (bind_keywords sg kw (bind_positional sg args) [])
      as [e|[locals extra]] eqn:Hkw; [discriminate|].
    destruct (Nat.ltb _ _) eqn:Hlen; [discriminate|].
    apply Nat.ltb_ge in Hlen.
    destruct (fill_defaults (sig_params sg) locals) as [e|vs] eqn:Hfd;
      [discriminate|].
    assert (Hacc : exists r', bind_keywords sg kw (bind_positional sg args) []
                              = inr r') by (eexists; exact Hkw).
    apply bind_keywords_accepts in Hacc. destruct Hacc as [Hnd [Hp Hx]].
    destruct (bind_keywords_inr _ _ _ _ Hkw) as [Hl _].
    split; [exact Hlen|]. split; [exact Hnd|]. split; [|split].
    + intros i name Hi Hlt.
      destruct (lookup name kw) as [v|] eqn:El; [exfalso|reflexivity].
      apply lookup_Some_In in El. apply (in_map fst) in El. simpl in El.
      assert (Hparam : is_param sg name = true).
      { apply is_param_true. eapply nth_error_In. exact Hi. }
      specialize (Hp name El Hparam). unfold bind_positional in Hp.
      erewrite lookup_combine in Hp by eassumption.
      apply nth_error_None in Hp. lia.
    + intros Hv k Hin. destruct (is_param sg k) eqn:Hk; [reflexivity|].
      destruct (Hx k Hin Hk) as [Hv' _]. congruence.
    + intros i name Hi Hg.
      assert (Hfill : exists vs', fill_defaults (sig_params sg) locals
                                  = inr vs') by (eexists; exact Hfd).
      rewrite fill_defaults_accepts in Hfill.
      apply (Hfill name); [eapply nth_error_In; exact Hi|].
      assert (Hname : nth_error (param_names sg) i = Some name)
        by exact (map_nth_error fst i (sig_params sg) Hi).
      rewrite Hl by (apply is_param_true; eapply nth_error_In; exact Hname).
      unfold bind_positional. erewrite lookup_combine by eassumption.
      exact Hg.
  - intros [Hlen [Hnd [Hpos [Hclosed Hreq]]]].
    assert (Hacc : exists r', bind_keywords sg kw (bind_positional sg args) []
                              = inr r').
    { apply bind_keywords_accepts. split; [exact Hnd|]. split.
      - intros k Hin Hk. apply is_param_true in Hk.
        apply In_nth_error in Hk. destruct Hk as [i Hi].
        unfold bind_positional. erewrite lookup_combine by eassumption.
        apply nth_error_None.
        destruct (Nat.lt_ge_cases i (List.length args)) as [Hlt|Hge];
          [|exact Hge].
        exfalso. apply (proj1 (lookup_None k kw) (Hpos i k Hi Hlt)).
        exact Hin.
      - intros k Hin Hk. split; [|reflexivity].
        destruct (sig_varkw sg) eqn:Hv; [reflexivity|].
        rewrite (Hclosed eq_refl k Hin) in Hk. discriminate. }
    destruct Hacc as [[locals extra] Hkw]. rewrite Hkw.
    destruct (bind_keywords_inr _ _ _ _ Hkw) as [Hl _].
    apply Nat.ltb_ge in Hlen. rewrite Hlen.
    assert (Hfill : exists vs, fill_defaults (sig_params sg) locals = inr vs).
    { apply fill_defaults_accepts. intros name Hin.
      apply In_nth_error in Hin. destruct Hin as [i Hi].
      assert (Hname : nth_error (param_names sg) i = Some name)
        by exact (map_nth_error fst i (sig_params sg) Hi).
      rewrite Hl by (apply is_param_true; eapply nth_error_In; exact Hname).
      unfold bind_positional. erewrite lookup_combine by eassumption.
      exact (Hreq i name Hi). }
    destruct Hfill as [vs ->]. eexists. reflexivity.
Qed.

Lemma async_def_accepts (body : list pyval -> kwargs -> coro pyval)
    (args : list pyval) (kw : kwargs) :
  (exists c, async_def sg body args kw = inr c) <->
  (exists r, bind_args sg args kw = inr r).
Proof.
  unfold async_def. destruct (bind_args sg args kw) as [e|[vs extra]].
  - split; intros [x H]; discriminate.
  - split; intros _; eexists; reflexivity.
Qed.

Lemma async_def_inl (body : list pyval -> kwargs -> coro pyval)
    (args : list pyval) (kw : kwargs) (e : exn) :
  async_def sg body args kw = inl e -> exists msg, e = TypeError msg.
Proof.
  unfold async_def.
  destruct (bind_args sg args kw) as [e'|[vs extra]] eqn:Hb; [|discriminate].
  intros [= <-]. eapply bind_args_inl. exact Hb.
Qed.

End AcceptedCalls.

(** X1.  [setup_db] accepts a call exactly when the call has at most nine
    positional arguments, writes no keyword twice, gives no parameter
    both by position and by keyword, and gives [username], [password],
    [host] and [database]; any other keyword is welcome. *)
Theorem setup_db_accepts_exactly
    (format_object : pyval -> string) (args : list pyval) (kw : kwargs) :
  (exists c, setup_db format_object args kw = inr c) <->
  List.length args <= 9
  /\ NoDup (map fst kw)
  /\ (forall i name,
        nth_error (param_names setup_db_sig) i = Some name ->
        i < List.length args -> lookup name kw = None)
  /\ given 0 "username" args kw <> None
  /\ given 1 "password" args kw <> None
  /\ given 2 "host" args kw <> None
  /\ given 3 "database" args kw <> None.
Proof.
  unfold setup_db. rewrite async_def_accepts.
  rewrite (@bind_args_accepts _ setup_db_names_distinct). simpl sig_varkw.
  split.
  - intros [Hlen [Hnd [Hpos [_ Hreq]]]].
    split; [exact Hlen|]. split; [exact Hnd|]. split; [exact Hpos|].
    repeat split.
    + exact (Hreq 0 _ eq_refl).
    + exact (Hreq 1 _ eq_refl).
    + exact (Hreq 2 _ eq_refl).
    + exact (Hreq 3 _ eq_refl).
  - intros [Hlen [Hnd [Hpos [H0 [H1 [H2 H3]]]]]].
    split; [exact Hlen|]. split; [exact Hnd|]. split; [exact Hpos|].
    split; [discriminate|].
    intros i name Hi.
    do 9 (destruct i as [|i]; [simpl in Hi; first
      [ injection Hi as <-; assumption | discriminate Hi ]|]).
    destruct i; discriminate Hi.
Qed.

(** X2.  [setup_es] accepts a call exactly when the call has at most six
    positional arguments, writes no keyword twice, gives no parameter
    both by position and by keyword, uses no keyword other than the
    names of its six parameters, and gives [host], [username] and
    [password]. *)
Theorem setup_es_accepts_exactly (args : list pyval) (kw : kwargs) :
  (exists c, setup_es args kw = inr c) <->
  List.length args <= 6
  /\ NoDup (map fst kw)
  /\ (forall i name,
        nth_error (param_names setup_es_sig) i = Some name ->
        i < List.length args -> lookup name kw = None)
  /\ (forall k, In k (map fst kw) -> In k (param_names setup_es_sig))
  /\ given 0 "host" args kw <> None
  /\ given 1 "username" args kw <> None
  /\ given 2 "password" args kw <> None.
Proof.
  unfold setup_es. rewrite async_def_accepts.
  rewrite (@bind_args_accepts _ setup_es_names_distinct). simpl sig_varkw.
  split.
  - intros [Hlen [Hnd [Hpos [Hclosed Hreq]]]].
    split; [exact Hlen|]. split; [exact Hnd|]. split; [exact Hpos|].
    split; [|repeat split].
    + intros k Hin. apply is_param_true. now apply Hclosed.
    + exact (Hreq 0 _ eq_refl).
    + exact (Hreq 1 _ eq_refl).
    + exact (Hreq 2 _ eq_refl).
  - intros [Hlen [Hnd [Hpos [Hclosed [H0 [H1 H2]]]]]].
    split; [exact Hlen|]. split; [exact Hnd|]. split; [exact Hpos|].
    split.
    + intros _ k Hin. apply is_param_true. now apply Hclosed.
    + intros i name Hi.
      do 6 (destruct i as [|i]; [simpl in Hi; first
        [ injection Hi as <-; assumption | discriminate Hi ]|]).
      destruct i; discriminate Hi.
Qed.

(** X3.  A call that one of the four helpers refuses raises a
    [TypeError]. *)
Theorem refused_call_raises_TypeError
    (format_object : pyval -> string)
    (args : list pyval) (kw : kwargs) (e : exn) :
  setup_db format_object args kw = inl e
  \/ shutdown_db args kw = inl e
  \/ setup_es args kw = inl e
  \/ shotdown_es args kw = inl e ->
  exists msg, e = TypeError msg.
Proof.
  intros [H|[H|[H|H]]]; eapply async_def_inl; exact H.
Qed.

(** [setup_es] has no [**kwargs]: [verify_certs] cannot be switched on
    from outside. *)
Lemma refused_call_raises_TypeError_witness :
  let args := [VStr "https://es:9200"; VStr "elastic"; VStr "s3cret"] in
  let kw := [("verify_certs", VBool true)] in
  let e := TypeError "got an unexpected keyword argument" in
  (setup_db (fun _ => "<object>") args kw = inl e
   \/ shutdown_db args kw = inl e
   \/ setup_es args kw = inl e
   \/ shotdown_es args kw = inl e)
  /\ exists msg, e = TypeError msg.
Proof.
  cbv zeta. split.
  - right. right. left. reflexivity.
  - exact (@refused_call_raises_TypeError (fun _ => "<object>")
             [VStr "https://es:9200"; VStr "elastic"; VStr "s3cret"]
             [("verify_certs", VBool true)]
             (TypeError "got an unexpected keyword argument")
             (or_intror (or_intror (or_introl eq_refl)))).
Defined.

(** ** What reaches [init_db] *)

Section Options.

Variable format_object : pyval -> string.

Lemma lookup_app (name : string) (l l' : kwargs) :
  lookup name (l ++ l') =
  match lookup name l with
  | Some x => Some x
  | None => lookup name l'
  end.
Proof.
  induction l as [|[k v] l IH]; simpl; [reflexivity|].
  destruct (String.eqb k name); [reflexivity|exact IH].
Qed.

Lemma surplus_keys_distinct (sg : signature) (kw : kwargs) :
  NoDup (map fst kw) -> NoDup (map fst (surplus sg kw)).
Proof.
  unfold surplus. induction kw as [|[k v] kw IH]; simpl; intros Hnd.
  - constructor.
  - inversion Hnd as [|? ? Hnotin Hnd']; subst.
    destruct (negb (is_param sg k)); simpl; [|now apply IH].
    constructor; [|now apply IH].
    intros Hin. apply Hnotin. apply in_map_iff in Hin.
    destruct Hin as [[k' v'] [Hk Hin]]. simpl in Hk. subst k'.
    apply filter_In in Hin. destruct Hin as [Hin _].
    apply (in_map fst) in Hin. exact Hin.
Qed.

(** What acceptance says of the keywords of a call of [setup_db]. *)
Lemma setup_db_accepted_keywords (args : list pyval) (kw : kwargs)
    (c : coro pyval) :
  setup_db format_object args kw = inr c ->
  NoDup (map fst kw)
  /\ forall i name,
       nth_error (param_names setup_db_sig) i = Some name ->
       i < List.length args -> lookup name kw = None.
Proof.
  intros Hc.
  assert (Hacc : exists c', setup_db format_object args kw = inr c')
    by (eexists; exact Hc).
  unfold setup_db in Hacc. rewrite async_def_accepts in Hacc.
  rewrite (@bind_args_accepts _ setup_db_names_distinct) in Hacc.
  destruct Hacc as [_ [Hnd [Hpos _]]]. now split.
Qed.

(** A keyword of the caller that names one of the five pool parameters
    is what [setup_db] writes under that name. *)
Lemma pool_option_given (args : list pyval) (kw : kwargs)
    (i : nat) (name : string) (dflt v : pyval) :
  NoDup (map fst kw) ->
  (forall j n,
     nth_error (param_names setup_db_sig) j = Some n ->
     j < List.length args -> lookup n kw = None) ->
  nth_error (param_names setup_db_sig) i = Some name ->
  In (name, v) kw ->
  given_or dflt i name args kw = v.
Proof.
  intros Hnd Hpos Hi Hin.
  pose proof (@lookup_In name v kw Hnd Hin) as Hl.
  unfold given_or, given.
  destruct (nth_error args i) as [x|] eqn:Hx.
  - assert (Hlt : i < List.length args)
      by (apply nth_error_Some; congruence).
    rewrite (Hpos i name Hi Hlt) in Hl. discriminate.
  - now rewrite Hl.
Qed.

End Options.

(** X4.  In every accepted call of [setup_db] whose username, password,
    host and database are strings, the keywords handed to
    [init_db] have pairwise distinct names, and every keyword the caller
    wrote, other than [username], [password], [host] and [database],
    is among them under its own name with its own value; so the pool
    parameters cannot be overridden through [**engine_kwargs], and the
    merge of the two never fails. *)
Theorem setup_db_keywords_reach_init_db
    (format_object : pyval -> string)
    (username password host database : string)
    (args : list pyval) (kw : kwargs) (c : coro pyval) :
  setup_db format_object args kw = inr c ->
  given 0 "username" args kw = Some (VStr username) ->
  given 1 "password" args kw = Some (VStr password) ->
  given 2 "host" args kw = Some (VStr host) ->
  given 3 "database" args kw = Some (VStr database) ->
  forall (L : library) (s : lib_state L) (n : nat),
  exists url options r t,
    trace_of (run L (S n) c s) = EvCall init_db [url] options r :: t
    /\ NoDup (map fst options)
    /\ forall k v,
         In (k, v) kw ->
         k <> "username" -> k <> "password" -> k <> "host" ->
         k <> "database" ->
         lookup k options = Some v.
Proof.
  intros Hc _ _ _ _ L s n.
  destruct (setup_db_accepted_keywords _ _ _ Hc) as [Hnd Hpos].
  destruct (setup_db_trace format_object L _ _ s n Hc)
    as [u [p [h [d [r [t [_ [_ [_ [_ [Ht _]]]]]]]]]]].
  eexists _, _, r, t. split; [exact Ht|]. split.
  - rewrite map_app. apply NoDup_app.
    + unfold pool_options. simpl.
      repeat (constructor; [simpl; intuition discriminate|]). constructor.
    + now apply surplus_keys_distinct.
    + intros a Ha Hs. apply in_map_iff in Hs.
      destruct Hs as [[k v] [Hk Hin]]. simpl in Hk. subst k.
      apply surplus_keys_not_param in Hin.
      unfold pool_options in Ha. simpl in Ha.
      destruct Ha as [<-|[<-|[<-|[<-|[<-|[]]]]]]; discriminate Hin.
  - intros k v Hin Hu Hp Hh Hd. rewrite lookup_app.
    destruct (is_param setup_db_sig k) eqn:Hk.
    + apply is_param_true in Hk. unfold param_names in Hk. simpl in Hk.
      destruct Hk as [<-|[<-|[<-|[<-|Hk]]]]; try congruence.
      destruct Hk as [<-|[<-|[<-|[<-|[<-|[]]]]]]; cbn [pool_options lookup];
        simpl String.eqb; cbv iota; f_equal;
        eapply pool_option_given; try eassumption; reflexivity.
    + assert (Hpool : lookup k (pool_options args kw) = None).
      { apply lookup_None. unfold pool_options. simpl.
        intros [<-|[<-|[<-|[<-|[<-|[]]]]]]; discriminate Hk. }
      rewrite Hpool. apply lookup_In.
      * now apply surplus_keys_distinct.
      * unfold surplus. apply filter_In. split; [exact Hin|].
        simpl. now rewrite Hk.
Qed.

Lemma setup_db_keywords_reach_init_db_witness :
  let fo : pyval -> string := fun _ => "<object>" in
  let args := [VStr "u"; VStr "p"; VStr "db.local"] in
  let kw :=
    [ ("pool_pre_ping", VBool true); ("database", VStr "app");
      ("pool_recycle", VInt 900) ] in
  let c :=
    setup_db_body fo (VStr "u") (VStr "p") (VStr "db.local") (VStr "app")
      (VBool false) (VInt 5) (VInt 10) (VInt 30) (VInt 900)
      [("pool_pre_ping", VBool true)] in
  setup_db fo args kw = inr c
  /\ given 0 "username" args kw = Some (VStr "u")
  /\ given 1 "password" args kw = Some (VStr "p")
  /\ given 2 "host" args kw = Some (VStr "db.local")
  /\ given 3 "database" args kw = Some (VStr "app")
  /\ exists url options r t,
       trace_of (run countdown_lib 1 c 0) =
         EvCall init_db [url] options r :: t
       /\ NoDup (map fst options)
       /\ forall k v,
            In (k, v) kw ->
            k <> "username" -> k <> "password" -> k <> "host" ->
            k <> "database" ->
            lookup k options = Some v.
Proof.
  cbv zeta. do 5 (split; [reflexivity|]).
  exact (@setup_db_keywords_reach_init_db (fun _ => "<object>")
           "u" "p" "db.local" "app"
           [VStr "u"; VStr "p"; VStr "db.local"]
           [ ("pool_pre_ping", VBool true); ("database", VStr "app");
             ("pool_recycle", VInt 900) ] _
           eq_refl eq_refl eq_refl eq_refl eq_refl countdown_lib 0 0).
Defined.

(** ** Position or keyword *)

(** X5.  Two accepted calls of [setup_db] that give the same value for
    each of the nine parameters, whether by position or by keyword and
    with the keywords in any order, and the same other keywords, make the
    same coroutine. *)
Theorem setup_db_position_or_keyword
    (format_object : pyval -> string)
    (args args' : list pyval) (kw kw' : kwargs) (c c' : coro pyval) :
  setup_db format_object args kw = inr c ->
  setup_db format_object args' kw' = inr c' ->
  (forall i name,
     nth_error (param_names setup_db_sig) i = Some name ->
     given i name args kw = given i name args' kw') ->
  surplus setup_db_sig kw = surplus setup_db_sig kw' ->
  c = c'.
Proof.
  intros Hc Hc' Hg Hs.
  destruct (setup_db_coroutine _ _ _ Hc)
    as [u [p [h [d [Hu [Hp [Hh [Hd ->]]]]]]]].
  destruct (setup_db_coroutine _ _ _ Hc')
    as [u' [p' [h' [d' [Hu' [Hp' [Hh' [Hd' ->]]]]]]]].
  rewrite (Hg 0 "username" eq_refl) in Hu. rewrite (Hg 1 "password" eq_refl) in Hp.
  rewrite (Hg 2 "host" eq_refl) in Hh. rewrite (Hg 3 "database" eq_refl) in Hd.
  assert (u = u') by congruence. assert (p = p') by congruence.
  assert (h = h') by congruence. assert (d = d') by congruence.
  subst. unfold pool_options, given_or.
  rewrite (Hg 4 "echo" eq_refl), (Hg 5 "pool_size" eq_refl), (Hg 6 "max_overflow" eq_refl),
    (Hg 7 "pool_timeout" eq_refl), (Hg 8 "pool_recycle" eq_refl), Hs.
  reflexivity.
Qed.

(** Everything by position against everything by keyword, backwards. *)
Lemma setup_db_position_or_keyword_witness :
  let fo : pyval -> string := fun _ => "<object>" in
  let args :=
    [VStr "u"; VStr "p"; VStr "localhost"; VStr "mydb"; VBool true] in
  let kw := [("application_name", VStr "agstack")] in
  let kw' :=
    [ ("echo", VBool true); ("application_name", VStr "agstack");
      ("database", VStr "mydb"); ("host", VStr "localhost");
      ("password", VStr "p"); ("username", VStr "u") ] in
  let c :=
    setup_db_body fo (VStr "u") (VStr "p") (VStr "localhost") (VStr "mydb")
      (VBool true) (VInt 5) (VInt 10) (VInt 30) (VInt 3600)
      [("application_name", VStr "agstack")] in
  setup_db fo args kw = inr c
  /\ setup_db fo [] kw' = inr c
  /\ (forall i name,
        nth_error (param_names setup_db_sig) i = Some name ->
        given i name args kw = given i name [] kw')
  /\ surplus setup_db_sig kw = surplus setup_db_sig kw'
  /\ c = c.
Proof.
  cbv zeta.
  assert (Hg : forall i name,
             nth_error (param_names setup_db_sig) i = Some name ->
             given i name
               [VStr "u"; VStr "p"; VStr "localhost"; VStr "mydb";
                VBool true]
               [("application_name", VStr "agstack")] =
             given i name []
               [ ("echo", VBool true); ("application_name", VStr "agstack");
                 ("database", VStr "mydb"); ("host", VStr "localhost");
                 ("password", VStr "p"); ("username", VStr "u") ]).
  { intros i name Hi.
    do 9 (destruct i as [|i];
          [simpl in Hi; injection Hi as <-; reflexivity|]).
    destruct i; discriminate Hi. }
  split; [reflexivity|]. split; [reflexivity|]. split; [exact Hg|].
  split; [reflexivity|].
  exact (@setup_db_position_or_keyword (fun _ => "<object>")
           [VStr "u"; VStr "p"; VStr "localhost"; VStr "mydb"; VBool true]
           []
           [("application_name", VStr "agstack")]
           [ ("echo", VBool true); ("application_name", VStr "agstack");
             ("database", VStr "mydb"); ("host", VStr "localhost");
             ("password", VStr "p"); ("username", VStr "u") ]
           _ _ eq_refl eq_refl Hg eq_refl).
Defined.

(** X6.  Two accepted calls of [setup_es] that give the same value for
    each of the six parameters, by position or by keyword, make the same
    coroutine. *)
Theorem setup_es_position_or_keyword
    (args args' : list pyval) (kw kw' : kwargs) (c c' : coro pyval) :
  setup_es args kw = inr c ->
  setup_es args' kw' = inr c' ->
  (forall i name,
     nth_error (param_names setup_es_sig) i = Some name ->
     given i name args kw = given i name args' kw') ->
  c = c'.
Proof.
  intros Hc Hc' Hg.
  destruct (setup_es_coroutine _ _ Hc) as [h [u [p [Hh [Hu [Hp ->]]]]]].
  destruct (setup_es_coroutine _ _ Hc') as [h' [u' [p' [Hh' [Hu' [Hp' ->]]]]]].
  rewrite (Hg 0 "host" eq_refl) in Hh. rewrite (Hg 1 "username" eq_refl) in Hu.
  rewrite (Hg 2 "password" eq_refl) in Hp.
  assert (h = h') by congruence. assert (u = u') by congruence.
  assert (p = p') by congruence.
  subst. unfold connection_options, given_or.
  rewrite (Hg 3 "timeout" eq_refl), (Hg 4 "sniff_on_start" eq_refl), (Hg 5 "sniff_timeout" eq_refl).
  reflexivity.
Qed.

Lemma setup_es_position_or_keyword_witness :
  let args :=
    [VStr "https://es:9200"; VStr "elastic"; VStr "s3cret"; VInt 10] in
  let kw' :=
    [ ("timeout", VInt 10); ("password", VStr "s3cret");
      ("host", VStr "https://es:9200"); ("username", VStr "elastic") ] in
  let c :=
    setup_es_body (VStr "https://es:9200") (VStr "elastic") (VStr "s3cret")
      (VInt 10) (VBool true) (VInt 3) in
  setup_es args [] = inr c
  /\ setup_es [] kw' = inr c
  /\ (forall i name,
        nth_error (param_names setup_es_sig) i = Some name ->
        given i name args [] = given i name [] kw')
  /\ c = c.
Proof.
  cbv zeta.
  assert (Hg : forall i name,
             nth_error (param_names setup_es_sig) i = Some name ->
             given i name
               [VStr "https://es:9200"; VStr "elastic"; VStr "s3cret";
                VInt 10] [] =
             given i name []
               [ ("timeout", VInt 10); ("password", VStr "s3cret");
                 ("host", VStr "https://es:9200");
                 ("username", VStr "elastic") ]).
  { intros i name Hi.
    do 6 (destruct i as [|i];
          [simpl in Hi; injection Hi as <-; reflexivity|]).
    destruct i; discriminate Hi. }
  split; [reflexivity|]. split; [reflexivity|]. split; [exact Hg|].
  exact (@setup_es_position_or_keyword
           [VStr "https://es:9200"; VStr "elastic"; VStr "s3cret"; VInt 10]
           []
           []
           [ ("timeout", VInt 10); ("password", VStr "s3cret");
             ("host", VStr "https://es:9200"); ("username", VStr "elastic") ]
           _ _ eq_refl eq_refl Hg).
Defined.

(** ** The connection URL read back *)

Section ConnectionUrl.

Lemma append_cancel_prefix (s a b : string) :
  (s ++ a)%string = (s ++ b)%string -> a = b.
Proof.
  induction s as [|c s IH]; simpl; [auto|]. intros [= H]. now apply IH.
Qed.

(** A string is cut in one way only at the first occurrence of a
    character. *)
Lemma first_occurrence_unique (c : ascii) (s s' r r' : string) :
  occurs c s = false ->
  occurs c s' = false ->
  (s ++ String c r)%string = (s' ++ String c r')%string ->
  s = s' /\ r = r'.
Proof.
  revert s'. induction s as [|a s IH]; intros [|a' s'] Hs Hs' H;
    simpl in *.
  - injection H as ->. now split.
  - injection H as <- _. rewrite Ascii.eqb_refl in Hs'. discriminate.
  - injection H as -> _. rewrite Ascii.eqb_refl in Hs. discriminate.
  - injection H as <- H. apply orb_false_iff in Hs, Hs'.
    destruct (IH s' (proj2 Hs) (proj2 Hs') H) as [-> ->]. now split.
Qed.

Lemma until_delimiter_app (s r : string) :
  no_delimiter s ->
  until_delimiter (s ++ r) = (s ++ until_delimiter r)%string.
Proof.
  unfold no_delimiter. induction s as [|c s IH]; simpl; [reflexivity|].
  intros [H1 [H2 H3]]. apply orb_false_iff in H1, H2, H3.
  destruct H1 as [-> H1], H2 as [-> H2], H3 as [-> H3]. simpl.
  now rewrite IH.
Qed.

Lemma append_empty (s : string) : (s ++ "")%string = s.
Proof.
  induction s as [|c s IH]; simpl; [reflexivity|]. now rewrite IH.
Qed.

End ConnectionUrl.

(** X7.  As long as the username holds no [:], the password no [@] and
    the host no [/], the URL built by [setup_db] determines the four
    values: two quadruples of that kind with the same URL are equal. *)
Theorem db_url_determines_values
    (format_object : pyval -> string)
    (u p h d u' p' h' d' : string) :
  occurs ":" u = false -> occurs ":" u' = false ->
  occurs "@" p = false -> occurs "@" p' = false ->
  occurs "/" h = false -> occurs "/" h' = false ->
  db_url format_object (VStr u) (VStr p) (VStr h) (VStr d) =
  db_url format_object (VStr u') (VStr p') (VStr h') (VStr d') ->
  u = u' /\ p = p' /\ h = h' /\ d = d'.
Proof.
  intros Hu Hu' Hp Hp' Hh Hh' H.
  unfold db_url, format_field in H.
  apply append_cancel_prefix in H.
  apply (first_occurrence_unique ":" u u' _ _ Hu Hu') in H.
  destruct H as [-> H].
  apply (first_occurrence_unique "@" p p' _ _ Hp Hp') in H.
  destruct H as [-> H].
  apply (first_occurrence_unique "/" h h' _ _ Hh Hh') in H.
  destruct H as [-> ->]. repeat split.
Qed.

Lemma db_url_determines_values_witness :
  occurs ":" "app" = false /\ occurs ":" "app" = false
  /\ occurs "@" "s3:cr/et" = false /\ occurs "@" "s3:cr/et" = false
  /\ occurs "/" "db.local:5432" = false
  /\ occurs "/" "db.local:5432" = false
  /\ db_url (fun _ => "<object>") (VStr "app") (VStr "s3:cr/et")
       (VStr "db.local:5432") (VStr "prod/eu") =
     "postgresql+asyncpg://app:s3:cr/et@db.local:5432/prod/eu"
  /\ ("app" = "app" /\ "s3:cr/et" = "s3:cr/et"
      /\ "db.local:5432" = "db.local:5432" /\ "prod/eu" = "prod/eu").
Proof.
  do 7 (split; [reflexivity|]).
  exact (@db_url_determines_values (fun _ => "<object>")
           "app" "s3:cr/et" "db.local:5432" "prod/eu"
           "app" "s3:cr/et" "db.local:5432" "prod/eu"
           eq_refl eq_refl eq_refl eq_refl eq_refl eq_refl eq_refl).
Defined.

(** X8.  When the username, the password and the host hold none of [/],
    [?] and [#], the authority of the URL built by [setup_db] is
    [username:password@host], whatever the database name is. *)
Theorem db_url_authority
    (format_object : pyval -> string) (u p h d : string) :
  no_delimiter u -> no_delimiter p -> no_delimiter h ->
  authority (db_url format_object (VStr u) (VStr p) (VStr h) (VStr d)) =
  Some (u ++ ":" ++ p ++ "@" ++ h)%string.
Proof.
  intros Hu Hp Hh. unfold authority, db_url, format_field.
  cbn [after_slashes append Ascii.eqb Bool.eqb andb].
  f_equal. rewrite (until_delimiter_app _ Hu).
  cbn [until_delimiter append Ascii.eqb Bool.eqb orb].
  rewrite (until_delimiter_app _ Hp).
  cbn [until_delimiter append Ascii.eqb Bool.eqb orb].
  rewrite (until_delimiter_app _ Hh).
  cbn [until_delimiter append Ascii.eqb Bool.eqb orb].
  now rewrite append_empty.
Qed.

Lemma db_url_authority_witness :
  no_delimiter "app" /\ no_delimiter "s3:cr@et"
  /\ no_delimiter "db.local:5432"
  /\ authority
       (db_url (fun _ => "<object>") (VStr "app") (VStr "s3:cr@et")
          (VStr "db.local:5432") (VStr "prod/eu?x#y")) =
     Some "app:s3:cr@et@db.local:5432".
Proof.
  split; [repeat split|]. split; [repeat split|]. split; [repeat split|].
  exact (@db_url_authority (fun _ => "<object>")
           "app" "s3:cr@et" "db.local:5432" "prod/eu?x#y"
           (conj eq_refl (conj eq_refl eq_refl))
           (conj eq_refl (conj eq_refl eq_refl))
           (conj eq_refl (conj eq_refl eq_refl))).
Defined.
